(** * spectral_slopes.py: the cohort runner of psd-slope-rs-gng

    A shallow embedding of [src/rs/full/analysis/spectral_slopes.py]:
    [get_filelist], [get_subject_slopes] and [main].  The [Subject] class
    the script imports ([from subject import Subject]) is an interface
    here ([SubjectOps]); the parts of it the specification describes
    (windowing, spectral averaging, slope fitting) are modelled from the
    specification in the module [SubjectSpec]. *)

From stdpp Require Import gmap strings list fin_maps pretty.
From Stdlib Require Import Ascii QArith.

Close Scope Q_scope.
Open Scope string_scope.

#[local] Set Warnings "-register-all".

(** ** Python strings *)

(** The newline and tab characters. *)
Definition nl : string := String (Ascii.ascii_of_nat 10) EmptyString.
Definition tab : string := String (Ascii.ascii_of_nat 9) EmptyString.

(** [s.split(sep)] for a one-character separator: never empty. *)
Fixpoint py_split (sep : Ascii.ascii) (s : string) : list string :=
  match s with
  | EmptyString => [EmptyString]
  | String c s' =>
      if Ascii.eqb c sep then EmptyString :: py_split sep s'
      else match py_split sep s' with
           | [] => [String c EmptyString]
           | w :: ws => String c w :: ws
           end
  end.

(** [l[-1]] on a list of strings; [py_split] never returns the empty list. *)
Definition py_last (l : list string) : string := List.last l EmptyString.

(** [s[:-n]]: all but the last [n] characters (empty when [s] is shorter). *)
Definition drop_last (n : nat) (s : string) : string :=
  String.substring 0 (String.length s - n) s.

(** [s.endswith(suf)]. *)
Definition ends_with (suf s : string) : bool :=
  String.prefix (String.rev suf) (String.rev s).

(** [x.split('/')[-1][:-4]]: the subject identity of a recording path
    (lines 187 and 201). *)
Definition subject_name (path : string) : string :=
  drop_last 4 (py_last (py_split "/"%char path)).

(** ** The file system seen by [os.walk] and [glob.glob] *)

(** A directory entry is a plain file or a directory with its own entries,
    in the order the operating system lists them. *)
Inductive Node : Type :=
| File
| Folder (entries : list (string * Node)).

Definition entries_of (n : Node) : list (string * Node) :=
  match n with File => [] | Folder es => es end.

Definition is_folder (n : Node) : bool :=
  match n with File => false | Folder _ => true end.

(** [os.path.join(a, b)] for a relative [b]. *)
Definition path_join (a b : string) : string :=
  if String.eqb a "" then b
  else if ends_with "/" a then a +:+ b
  else a +:+ "/" +:+ b.

(** [os.walk(top)], top-down: every directory reached from [top], each with
    its path.  The triple [(root, dirs, files)] of the library is
    [(root, dirnames d, filenames d)]; the node is kept so that [glob] can
    list the directory at [root].  Walking something that is not a
    directory yields nothing. *)
Fixpoint os_walk (top : string) (n : Node) : list (string * Node) :=
  match n with
  | File => []
  | Folder es =>
      (top, n) :: flat_map (fun e => os_walk (path_join top (fst e)) (snd e)) es
  end.

Definition dirnames (d : Node) : list string :=
  map fst (filter (fun e => is_folder (snd e)) (entries_of d)).

Definition filenames (d : Node) : list string :=
  map fst (filter (fun e => negb (is_folder (snd e))) (entries_of d)).

(** [c in s]. *)
Fixpoint contains (c : Ascii.ascii) (s : string) : bool :=
  match s with
  | EmptyString => false
  | String c' s' => Ascii.eqb c' c || contains c s'
  end.

(** [glob.has_magic(s)]: one of the wildcard characters [*], [?] and [[]
    occurs in [s].  [fnmatch_star] and [glob_star] below describe [glob] on
    a path and an extension without them. *)
Definition has_magic (s : string) : bool :=
  contains "*"%char s || contains "?"%char s || contains "["%char s.

(** The pattern ['*.' + extension] of [glob] against one entry name, for an
    extension without wildcard characters ([has_magic]) and without slash:
    the name ends in [.extension] and is not hidden (a leading dot is never
    matched by [*]). *)
Definition fnmatch_star (extension name : string) : bool :=
  negb (String.prefix "." name) && ends_with ("." +:+ extension) name.

(** [s.lstrip('/')] and [s.rstrip('/')]. *)
Fixpoint lstrip_slash (s : string) : string :=
  match s with
  | String c s' => if Ascii.eqb c "/"%char then lstrip_slash s' else s
  | EmptyString => EmptyString
  end.

Definition rstrip_slash (s : string) : string :=
  String.rev (lstrip_slash (String.rev s)).

(** The directory part [os.path.split(os.path.join(root, pat))[0]] of a
    pattern whose last component [pat] has no slash: trailing slashes are
    stripped unless the whole directory part consists of slashes. *)
Definition pattern_dirname (root : string) : string :=
  let head := if String.eqb root "" then "" else
              if ends_with "/" root then root else root +:+ "/" in
  if String.eqb (lstrip_slash head) "" then head else rstrip_slash head.

(** [glob.glob(os.path.join(root, '*.' + extension))] where [d] is the
    directory at [root], for a [root] and an [extension] without wildcard
    characters ([has_magic]) and an [extension] without slash: the matching
    entries of [d] itself, files and directories alike, each joined to the
    directory part of the pattern. *)
Definition glob_star (root : string) (d : Node) (extension : string) : list string :=
  map (fun e => path_join (pattern_dirname root) (fst e))
      (filter (fun e => fnmatch_star extension (fst e)) (entries_of d)).

(** ** [get_filelist] (lines 31-38) *)

(** The [for] loop over the walk with its [return] inside the body: the first
    iteration returns, so the rest of the walk is never visited; falling off
    an empty walk returns [None]. *)
Definition get_filelist_loop (walk : list (string * Node)) (extension : string)
  : option (list string) :=
  let filelist : list string := [] in
  match walk with
  | [] => None
  | (root, d) :: _ =>
      let filelist := (filelist ++ glob_star root d extension)%list in
      Some filelist
  end.

(** [fs] gives the tree found at a path, if the path names one. *)
Definition get_filelist (fs : string -> option Node) (import_path extension : string)
  : option (list string) :=
  match fs import_path with
  | None => get_filelist_loop [] extension
  | Some n => get_filelist_loop (os_walk import_path n) extension
  end.

(** A tree with everything below its top level removed. *)
Definition top_level_only (n : Node) : Node :=
  match n with
  | File => File
  | Folder es =>
      Folder (map (fun e => (fst e, match snd e with File => File | Folder _ => Folder [] end)) es)
  end.

(** ** Results and exceptions *)

Inductive result (E A : Type) : Type :=
| Ok (a : A)
| Raise (e : E).
Arguments Ok {E A} a.
Arguments Raise {E A} e.

#[global] Instance result_ret {E} : MRet (result E) := fun _ a => Ok a.
#[global] Instance result_bind {E} : MBind (result E) := fun _ _ f m =>
  match m with Ok a => f a | Raise e => Raise e end.
#[global] Instance result_fmap {E} : FMap (result E) := fun _ _ f m =>
  match m with Ok a => Ok (f a) | Raise e => Raise e end.

(** [o] if it is there, the exception [e] otherwise (a failed subscript). *)
Definition or_raise {E A} (e : E) (o : option A) : result E A :=
  match o with Some a => Ok a | None => Raise e end.

(** The exceptions [main] can end with.  [E] is the type of the exceptions
    raised inside the methods of the [Subject] class. *)
Inductive exn (E : Type) : Type :=
| SystemExit (code : Z)          (* sys.exit(2), lines 139 and 145 *)
| MissingSubjectInformation      (* the Exception of lines 192-193 *)
| TypeError                      (* iterating over None, line 187 *)
| KeyError                       (* a dictionary without the key *)
| IndexError                     (* a sequence subscript out of range *)
| ValueError                     (* a column whose length is not the table's *)
| SubjectRaised (e : E).
Arguments SystemExit {E} code.
Arguments MissingSubjectInformation {E}.
Arguments TypeError {E}.
Arguments KeyError {E}.
Arguments IndexError {E}.
Arguments ValueError {E}.
Arguments SubjectRaised {E} e.

(** ** Run parameters (lines 104-117, 126-130) *)

(** The [params] dictionary.  Its keys are fixed by the script, so it is a
    record; [p_Time] and [p_commit] are absent until lines 126-128 set them.
    Frequencies are Python numbers, kept as rationals. *)
Record Params : Type := mkParams {
  p_Time : option string;
  p_commit : option string;
  montage : string;
  recompute_psds : bool;
  psd_buffer_lofreq : Q;
  psd_buffer_hifreq : Q;
  fitting_func : string;
  fitting_lofreq : Q;
  fitting_hifreq : Q;
  trial_protocol : string;
  nwins_upperlimit : Z;
  import_path_csv : string;
  import_dir_mat : string;
  import_dir_evt : string;
  export_dir : string
}.

(** The values written in the script (lines 105-117). *)
Definition default_params : Params := {|
  p_Time := None;
  p_commit := None;
  montage := "sensor-level";
  recompute_psds := true;
  psd_buffer_lofreq := 7;
  psd_buffer_hifreq := 14;
  fitting_func := "ransac";
  fitting_lofreq := 2;
  fitting_hifreq := 24;
  trial_protocol := "match_OA";
  nwins_upperlimit := 0;
  import_path_csv := "data/auxilliary/ya-oa.csv";
  import_dir_mat := "data/rs/full/source-dmn/MagCleanEvtFiltCAR-mat/";
  import_dir_evt := "data/rs/full/evt/clean/";
  export_dir := "data/runs/"
|}.

(** The assignments [params[key] = value] the script performs. *)
Definition set_Time (v : string) (p : Params) : Params :=
  mkParams (Some v) (p_commit p) (montage p) (recompute_psds p)
    (psd_buffer_lofreq p) (psd_buffer_hifreq p) (fitting_func p) (fitting_lofreq p)
    (fitting_hifreq p) (trial_protocol p) (nwins_upperlimit p) (import_path_csv p)
    (import_dir_mat p) (import_dir_evt p) (export_dir p).

Definition set_commit (v : string) (p : Params) : Params :=
  mkParams (p_Time p) (Some v) (montage p) (recompute_psds p)
    (psd_buffer_lofreq p) (psd_buffer_hifreq p) (fitting_func p) (fitting_lofreq p)
    (fitting_hifreq p) (trial_protocol p) (nwins_upperlimit p) (import_path_csv p)
    (import_dir_mat p) (import_dir_evt p) (export_dir p).

Definition set_montage (v : string) (p : Params) : Params :=
  mkParams (p_Time p) (p_commit p) v (recompute_psds p)
    (psd_buffer_lofreq p) (psd_buffer_hifreq p) (fitting_func p) (fitting_lofreq p)
    (fitting_hifreq p) (trial_protocol p) (nwins_upperlimit p) (import_path_csv p)
    (import_dir_mat p) (import_dir_evt p) (export_dir p).

Definition set_trial_protocol (v : string) (p : Params) : Params :=
  mkParams (p_Time p) (p_commit p) (montage p) (recompute_psds p)
    (psd_buffer_lofreq p) (psd_buffer_hifreq p) (fitting_func p) (fitting_lofreq p)
    (fitting_hifreq p) v (nwins_upperlimit p) (import_path_csv p)
    (import_dir_mat p) (import_dir_evt p) (export_dir p).

Definition set_import_dir_mat (v : string) (p : Params) : Params :=
  mkParams (p_Time p) (p_commit p) (montage p) (recompute_psds p)
    (psd_buffer_lofreq p) (psd_buffer_hifreq p) (fitting_func p) (fitting_lofreq p)
    (fitting_hifreq p) (trial_protocol p) (nwins_upperlimit p) (import_path_csv p)
    v (import_dir_evt p) (export_dir p).

Definition set_export_dir (v : string) (p : Params) : Params :=
  mkParams (p_Time p) (p_commit p) (montage p) (recompute_psds p)
    (psd_buffer_lofreq p) (psd_buffer_hifreq p) (fitting_func p) (fitting_lofreq p)
    (fitting_hifreq p) (trial_protocol p) (nwins_upperlimit p) (import_path_csv p)
    (import_dir_mat p) (import_dir_evt p) v.

(** ** The metadata table read from the csv (lines 180-183) *)

(** One row of the csv after the [astype] conversions. *)
Record Row : Type := mkRow {
  SUBJECT : string;
  CLASS : string;
  AGE : Z;
  SEX : string
}.

(** [df[df.SUBJECT == subj_name]]: the rows of that subject, in order;
    [.values[0]] then takes the first. *)
Definition rows_of (df : list Row) (subj_name : string) : list Row :=
  filter (fun r => String.eqb (SUBJECT r) subj_name) df.

(** ** The result table (lines 237-248) *)

Inductive cell : Type :=
| CStr (s : string)
| CInt (z : Z)
| CNum (q : Q).

(** A data frame: its columns in order, each with its name. *)
Definition DataFrame : Type := list (string * list cell).

Definition df_columns (df : DataFrame) : list string := map fst df.

Definition df_nrows (df : DataFrame) : nat :=
  match df with [] => 0 | c :: _ => length (snd c) end.

(** [df[name] = vals] once the length is known to fit: an existing column
    of that name is replaced where it stands, a new name is appended. *)
Fixpoint df_assign (name : string) (vals : list cell) (df : DataFrame) : DataFrame :=
  match df with
  | [] => [(name, vals)]
  | c :: rest =>
      if String.eqb (fst c) name then (name, vals) :: rest
      else c :: df_assign name vals rest
  end.

(** ** What the run reads from its environment *)

Record World : Type := mkWorld {
  w_today : string;                             (* str(datetime.now()).split()[0] *)
  w_git_head : string;                          (* content of .git/refs/heads/master *)
  w_getopt : option (list (string * string));   (* getopt.getopt; None: GetoptError *)
  w_dirs : list string;                         (* the paths os.path.isdir accepts *)
  w_fs : string -> option Node;                 (* the tree at a path *)
  w_csv : string -> list Row                    (* pd.read_csv, after astype *)
}.

(** ** What the run does to its environment, and the calls it makes *)

(** The constructor and method calls on [subj[i]]. *)
Inductive Call : Type :=
| CNew (matfile evtfile group : string) (age : Z) (sex : string)
| CModify (a b : Z)
| CCompute (upperlimit : Z)
| CFit (func : string) (buf_lo buf_hi fit_lo fit_hi : Q).

Inductive Event : Type :=
| EPrint (text : string)                      (* print(text) *)
| EMkdir (path : string)                      (* os.mkdir(path) *)
| EWrite (path text : string)                 (* file.write(text) *)
| ECall (i : nat) (c : Call)                  (* a call on subj[i] *)
| ENpSave (filename : string)                 (* np.save(filename, subj) *)
| EToCsv (filename : string) (df : DataFrame). (* df.to_csv(filename) *)

(** Events that belong to the processing of a subject. *)
Definition subject_event (e : Event) : bool :=
  match e with
  | ECall _ _ => true
  | EPrint t => String.prefix "Processing: " t
  | _ => false
  end.

(** Events that write results. *)
Definition result_output (e : Event) : bool :=
  match e with
  | ENpSave _ | EToCsv _ _ => true
  | _ => false
  end.

(** The calls on [subj[i]] in a trace, in order. *)
Definition calls_on (i : nat) (tr : list Event) : list Call :=
  omap (fun e => match e with
                 | ECall j c => if Nat.eqb j i then Some c else None
                 | _ => None
                 end) tr.

(** ** The [Subject] class, as [main] uses it *)

(** [from subject import Subject]: the constructor, the three methods and the
    attributes [main] and [get_subject_slopes] read.  A method mutates its
    object; here it returns the object after the call, or the exception. *)
Class SubjectOps (Subj E : Type) : Type := {
  Subject : string -> string -> string -> Z -> string -> result E Subj;
  modify_trial_length : Z -> Z -> Subj -> result E Subj;
  compute_ch_psds : Z -> Subj -> result E Subj;
  fit_slopes : string -> Q -> Q -> Q -> Q -> Subj -> result E Subj;
  name : Subj -> string;
  group : Subj -> string;
  age : Subj -> Z;
  nwins_eyesc : Subj -> Z;
  nwins_eyeso : Subj -> Z;
  nbchan : Subj -> nat;
  chans : Subj -> list string;
  psds : Subj -> list (gmap string (list Q))
}.

(** What a column of the result table holds for each subject: one of the
    five attributes of lines 238-242, or the slope of a channel in a
    condition (lines 245-248). *)
Inductive field : Type :=
| FSubject
| FClass
| FAge
| FNwindowsEyesc
| FNwindowsEyeso
| FSlope (ch : nat) (slope_type : string).

(** The names of the columns of lines 238-244, in the order of line 244. *)
Definition meta_columns : list string :=
  ["SUBJECT"; "CLASS"; "AGE"; "NWINDOWS_EYESC"; "NWINDOWS_EYESO"].

(** ** [main] (lines 52-255) *)

Section Main.
Context {Subj E : Type} {Sops : SubjectOps Subj E}.

(** [str(x)] on a numeric parameter; Python's formatting of floats is not
    modelled. *)
Variable str_num : Q -> string.

(** The [subj] dictionary: its integer keys, ['nbsubj'] and
    ['time_computed']. *)
Record SubjDict : Type := mkSubjDict {
  nbsubj : option nat;
  items : gmap nat Subj;
  time_computed : option string
}.

(** The mutable state of a run: [params], [subj], and what has been
    printed, written and called so far, oldest first. *)
Record RunState : Type := mkRunState {
  params : Params;
  subj : SubjDict;
  trace : list Event
}.

Definition emit (e : Event) (st : RunState) : RunState :=
  mkRunState (params st) (subj st) (trace st ++ [e])%list.

Definition with_params (f : Params -> Params) (st : RunState) : RunState :=
  mkRunState (f (params st)) (subj st) (trace st).

Definition with_subj (f : SubjDict -> SubjDict) (st : RunState) : RunState :=
  mkRunState (params st) (f (subj st)) (trace st).

(** How a statement ends: normally, or with an exception; either way with
    the state it leaves. *)
Inductive outcome : Type :=
| Done (st : RunState)
| Raised (e : exn E) (st : RunState).

Definition final_state (o : outcome) : RunState :=
  match o with Done st => st | Raised _ st => st end.

(** A statement (or a few adjacent ones) of [main]. *)
Definition Action : Type := RunState -> outcome.

(** Statements in sequence; an exception ends the run. *)
Fixpoint run (acts : list Action) (st : RunState) : outcome :=
  match acts with
  | [] => Done st
  | a :: rest =>
      match a st with
      | Done st' => run rest st'
      | Raised e st' => Raised e st'
      end
  end.

(** The state after each statement executed, in order. *)
Fixpoint history (acts : list Action) (st : RunState) : list RunState :=
  match acts with
  | [] => []
  | a :: rest =>
      match a st with
      | Done st' => st' :: history rest st'
      | Raised e st' => [st']
      end
  end.

(** A statement that leaves [params] as it found it, however it ends. *)
Definition keeps_params (a : Action) : Prop :=
  forall st, params (final_state (a st)) = params st.

(** *** Establishing the parameters (lines 126-164) *)

(** Line 126. *)
Definition c_time (w : World) : Action := fun st =>
  Done (with_params (set_Time (w_today w)) st).

(** Lines 127-130; [move_to_end] only changes the order of the keys, which
    [params_items] below lists as it is afterwards. *)
Definition c_commit (w : World) : Action := fun st =>
  Done (with_params (set_commit (String.substring 0 7 (w_git_head w))) st).

Definition usage : list Event :=
  [EPrint (tab +:+ "spectral_slopes.py -m <montage> -i <import_dir> -o <export_dir> -p <trial_protocol>" +:+ nl);
   EPrint "Or, manually modify program parameters and run without command-line args."].

(** Lines 140-153: the loop over the parsed options. *)
Fixpoint apply_opts (opts : list (string * string)) (st : RunState) : outcome :=
  match opts with
  | [] => Done st
  | (opt, arg) :: rest =>
      if String.eqb opt "-h" then
        Raised (SystemExit 2) (foldl (fun s e => emit e s) st (EPrint ("Help:" +:+ nl) :: usage))
      else if String.eqb opt "-m" then apply_opts rest (with_params (set_montage arg) st)
      else if String.eqb opt "-i" then apply_opts rest (with_params (set_import_dir_mat arg) st)
      else if String.eqb opt "-o" then apply_opts rest (with_params (set_export_dir arg) st)
      else if String.eqb opt "-p" then apply_opts rest (with_params (set_trial_protocol arg) st)
      else apply_opts rest st
  end.

(** Lines 133-153. *)
Definition c_getopt (w : World) : Action := fun st =>
  match w_getopt w with
  | None =>
      Raised (SystemExit 2)
             (foldl (fun s e => emit e s) st
                    (EPrint ("Error: Bad input. To run:" +:+ nl) :: usage))
  | Some opts => apply_opts opts st
  end.

(** Lines 158-162: the [while] loop looking for a directory name that is
    not taken; [cur] is [export_dir_name], [fuel] bounds the iterations. *)
Fixpoint free_dir_name (isdir : string -> bool) (base : string)
    (fuel num : nat) (cur : string) : option string :=
  if isdir cur then
    match fuel with
    | 0 => None
    | S fuel' =>
        free_dir_name isdir base fuel' (num + 1) (base +:+ "-" +:+ pretty num +:+ "/")
    end
  else Some cur.

Definition isdir (w : World) (path : string) : bool := bool_decide (path ∈ w_dirs w).

(** Lines 156-164.  There are finitely many directories, so the loop ends
    within [length (w_dirs w)] iterations ([run_dir_name_found]). *)
Definition c_mkdir (w : World) : Action := fun st =>
  match p_Time (params st) with
  | None => Raised KeyError st
  | Some time =>
      let base := export_dir (params st) +:+ "/" +:+ time +:+ "-" +:+ montage (params st) in
      match free_dir_name (isdir w) base (length (w_dirs w)) 1 (base +:+ "/") with
      | None => Raised KeyError st
      | Some export_dir_name =>
          Done (emit (EMkdir export_dir_name)
                     (with_params (set_export_dir export_dir_name) st))
      end
  end.

Definition str_bool (b : bool) : string := if b then "True" else "False".

(** [params.items()] with [str] applied to the values, in the order of the
    dictionary after lines 129-130. *)
Definition params_items (p : Params) : list (string * string) :=
  (match p_Time p with Some t => [("Time", t)] | None => [] end ++
   match p_commit p with Some c => [("commit", c)] | None => [] end ++
   [("montage", montage p);
    ("recompute_psds", str_bool (recompute_psds p));
    ("psd_buffer_lofreq", str_num (psd_buffer_lofreq p));
    ("psd_buffer_hifreq", str_num (psd_buffer_hifreq p));
    ("fitting_func", fitting_func p);
    ("fitting_lofreq", str_num (fitting_lofreq p));
    ("fitting_hifreq", str_num (fitting_hifreq p));
    ("trial_protocol", trial_protocol p);
    ("nwins_upperlimit", pretty (nwins_upperlimit p));
    ("import_path_csv", import_path_csv p);
    ("import_dir_mat", import_dir_mat p);
    ("import_dir_evt", import_dir_evt p);
    ("export_dir", export_dir p)])%list.

(** Lines 167-173: the parameters on the terminal and in parameters.txt. *)
Definition a_write_params : Action := fun st =>
  let path := export_dir (params st) +:+ "parameters.txt" in
  let lines := map (fun kv => " " +:+ fst kv +:+ ": " +:+ snd kv) (params_items (params st)) in
  let st := emit (EPrint "") st in
  let st := foldl (fun s line => emit (EWrite path (line +:+ nl)) (emit (EPrint line) s)) st lines in
  Done (emit (EPrint "") st).

(** What [a_write_params] prints and writes under the parameters [p]. *)
Definition params_log (p : Params) : list Event :=
  (EPrint "" ::
   flat_map (fun line => [EPrint line; EWrite (export_dir p +:+ "parameters.txt") (line +:+ nl)])
            (map (fun kv => " " +:+ fst kv +:+ ": " +:+ snd kv) (params_items p)) ++
   [EPrint ""])%list.

Definition config_actions (w : World) : list Action :=
  [c_time w; c_commit w; c_getopt w; c_mkdir w].

(** *** The pipeline (lines 179-255) *)

(** Lines 187-188. *)
Definition subjects_of (matfiles : list string) : gset string :=
  list_to_set (map subject_name matfiles).

Definition missing_subjects (matfiles : list string) (df : list Row) : gset string :=
  subjects_of matfiles ∖ list_to_set (map SUBJECT df).

Definition missing_line (s : string) : string :=
  "ERROR: Specified csv does not contain information for subject " +:+ s.

(** Lines 187-193.  [matfiles] is [None] when [get_filelist] fell off its
    loop.  The order in which a Python set is iterated is not specified; the
    model prints in the order of [elements]. *)
Definition a_check_missing (matfiles : option (list string)) (df : list Row) : Action :=
  fun st =>
  match matfiles with
  | None => Raised TypeError st
  | Some fl =>
      let missing := missing_subjects fl df in
      if bool_decide (size missing ≠ 0) then
        Raised MissingSubjectInformation
               (foldl (fun s m => emit (EPrint (missing_line m)) s) st (elements missing))
      else Done st
  end.

(** Lines 196-197. *)
Definition a_init_subj (fl : list string) : Action := fun st =>
  Done (with_subj (fun _ => mkSubjDict (Some (length fl)) ∅ None) st).

Definition a_print (text : string) : Action := fun st => Done (emit (EPrint text) st).

(** [subj[i].method(...)]: the call is recorded, the object is replaced by
    what the method leaves, an exception of the method ends the run. *)
Definition call_method (i : nat) (c : Call) (m : Subj -> result E Subj) : Action :=
  fun st =>
  match items (subj st) !! i with
  | None => Raised KeyError st
  | Some s =>
      let st := emit (ECall i c) st in
      match m s with
      | Ok s' =>
          Done (with_subj (fun d => mkSubjDict (nbsubj d) (<[i := s']> (items d)) (time_computed d)) st)
      | Raise e => Raised (SubjectRaised e) st
      end
  end.

(** Lines 203-206: the three lookups in the csv take the first row of the
    subject; then [subj[i] = Subject(...)]. *)
Definition a_construct (i : nat) (matfile : string) (df : list Row) : Action := fun st =>
  let subj_name := subject_name matfile in
  match rows_of df subj_name with
  | [] => Raised IndexError st
  | r :: _ =>
      let evt := import_dir_evt (params st) +:+ subj_name +:+ ".evt" in
      let st := emit (ECall i (CNew matfile evt (CLASS r) (AGE r) (SEX r))) st in
      match Subject matfile evt (CLASS r) (AGE r) (SEX r) with
      | Ok s =>
          Done (with_subj (fun d => mkSubjDict (nbsubj d) (<[i := s]> (items d)) (time_computed d)) st)
      | Raise e => Raised (SubjectRaised e) st
      end
  end.

(** The test of line 210, on the [group] read at line 203. *)
Definition modifies (p : Params) (group : string) : bool :=
  String.eqb (trial_protocol p) "match_OA" && String.eqb group "DANE".

(** Lines 210-211. *)
Definition a_modify (i : nat) (matfile : string) (df : list Row) : Action := fun st =>
  match rows_of df (subject_name matfile) with
  | [] => Raised IndexError st
  | r :: _ =>
      if modifies (params st) (CLASS r)
      then call_method i (CModify 0 30) (modify_trial_length 0 30) st
      else Done st
  end.

(** Line 212. *)
Definition a_compute (i : nat) : Action := fun st =>
  let n := nwins_upperlimit (params st) in
  call_method i (CCompute n) (compute_ch_psds n) st.

(** Lines 218-224.  Lines 218-221 bind [regr], which is not used again;
    with another selector they bind nothing.  The selector and the four
    frequencies go to [fit_slopes] as they are. *)
Definition a_fit (i : nat) : Action := fun st =>
  let p := params st in
  call_method i
    (CFit (fitting_func p) (psd_buffer_lofreq p) (psd_buffer_hifreq p)
          (fitting_lofreq p) (fitting_hifreq p))
    (fit_slopes (fitting_func p) (psd_buffer_lofreq p) (psd_buffer_hifreq p)
                (fitting_lofreq p) (fitting_hifreq p)) st.

(** An exception of a method of [Subject], as [main] sees it. *)
Definition in_main {A} (r : result E A) : result (exn E) A :=
  match r with Ok a => Ok a | Raise e => Raise (SubjectRaised e) end.

(** The calls one pass of the loop makes on its subject, under the
    parameters [p], when nothing raises. *)
Definition expected_calls (p : Params) (df : list Row) (matfile : string) : list Call :=
  match rows_of df (subject_name matfile) with
  | [] => []
  | r :: _ =>
      (CNew matfile (import_dir_evt p +:+ subject_name matfile +:+ ".evt")
            (CLASS r) (AGE r) (SEX r) ::
       (if modifies p (CLASS r) then [CModify 0 30] else []) ++
       [CCompute (nwins_upperlimit p);
        CFit (fitting_func p) (psd_buffer_lofreq p) (psd_buffer_hifreq p)
             (fitting_lofreq p) (fitting_hifreq p)])%list
  end.

(** The object one pass of the loop leaves in [subj[i]]. *)
Definition processed (p : Params) (df : list Row) (matfile : string) : result (exn E) Subj :=
  match rows_of df (subject_name matfile) with
  | [] => Raise IndexError
  | r :: _ =>
      s ← in_main (Subject matfile (import_dir_evt p +:+ subject_name matfile +:+ ".evt")
                           (CLASS r) (AGE r) (SEX r));
      s ← (if modifies p (CLASS r) then in_main (modify_trial_length 0 30 s) else Ok s);
      s ← in_main (compute_ch_psds (nwins_upperlimit p) s);
      in_main (fit_slopes (fitting_func p) (psd_buffer_lofreq p) (psd_buffer_hifreq p)
                          (fitting_lofreq p) (fitting_hifreq p) s)
  end.

(** The body of the loop of line 198 for index [i] and [matfiles[i]]. *)
Definition loop_body (df : list Row) (i : nat) (matfile : string) : list Action :=
  [a_print ("Processing: " +:+ subject_name matfile);
   a_construct i matfile df;
   a_print "Computing PSDs... ";
   a_modify i matfile df;
   a_compute i;
   a_print "Done.";
   a_print "Fitting slopes... ";
   a_fit i;
   a_print ("Done." +:+ nl)].

(** Lines 228-231. *)
Definition a_save_npy : Action := fun st =>
  let p := params st in
  let filename := export_dir p +:+ "subj-" +:+ str_num (fitting_lofreq p) +:+ "-" +:+
                  str_num (fitting_hifreq p) +:+ "-" +:+ fitting_func p +:+ ".npy" in
  match p_Time p with
  | None => Raised KeyError st
  | Some t =>
      Done (emit (ENpSave filename)
                 (with_subj (fun d => mkSubjDict (nbsubj d) (items d) (Some t)) st))
  end.

(** *** [get_subject_slopes] (lines 41-48) and the table (lines 237-248) *)

(** [subj[i]] for an integer key. *)
Definition subj_at (d : SubjDict) (i : nat) : result (exn E) Subj :=
  or_raise KeyError (items d !! i).

(** [subj[i].psds[ch][key][0]]. *)
Definition slope_of (s : Subj) (ch : nat) (key : string) : result (exn E) Q :=
  p ← or_raise IndexError (psds s !! ch);
  r ← or_raise KeyError (p !! key);
  or_raise IndexError (r !! 0).

(** [[f(subj[i]) for i in range(subj['nbsubj'])]]. *)
Definition per_subject {A} (d : SubjDict) (f : Subj -> result (exn E) A)
  : result (exn E) (list A) :=
  n ← or_raise KeyError (nbsubj d);
  mapM (fun i => s ← subj_at d i; f s) (seq 0 n).

Definition get_subject_slopes (d : SubjDict) (ch : nat) (slope_type : string)
  : result (exn E) (list Q) :=
  per_subject d (fun s => slope_of s ch (slope_type +:+ "_slope")).

(** [df[name] = vals]: pandas refuses a column of another length. *)
Definition df_set (name : string) (vals : list cell) (df : DataFrame)
  : result (exn E) DataFrame :=
  if Nat.eqb (length vals) (df_nrows df) then Ok (df_assign name vals df)
  else Raise ValueError.

(** One of the loops of lines 245-248, over the channel indices [chs]: the
    right-hand side is evaluated before the column name. *)
Fixpoint slope_columns (d : SubjDict) (slope_type suffix : string)
    (chs : list nat) (df : DataFrame) : result (exn E) DataFrame :=
  match chs with
  | [] => Ok df
  | ch :: rest =>
      col ← get_subject_slopes d ch slope_type;
      s0 ← subj_at d 0;
      nm ← or_raise IndexError (chans s0 !! ch);
      df' ← df_set (nm +:+ suffix) (map CNum col) df;
      slope_columns d slope_type suffix rest df'
  end.

(** Lines 237-248. *)
Definition build_table (d : SubjDict) : result (exn E) DataFrame :=
  c_subject ← per_subject d (fun s => Ok (CStr (name s)));
  c_class ← per_subject d (fun s => Ok (CStr (group s)));
  c_age ← per_subject d (fun s => Ok (CInt (age s)));
  c_nwc ← per_subject d (fun s => Ok (CInt (nwins_eyesc s)));
  c_nwo ← per_subject d (fun s => Ok (CInt (nwins_eyeso s)));
  let df := [("SUBJECT", c_subject); ("CLASS", c_class); ("AGE", c_age);
             ("NWINDOWS_EYESC", c_nwc); ("NWINDOWS_EYESO", c_nwo)] in
  s0 ← subj_at d 0;
  df ← slope_columns d "eyesc" "_EYESC" (seq 0 (nbchan s0)) df;
  s0 ← subj_at d 0;
  slope_columns d "eyeso" "_EYESO" (seq 0 (nbchan s0)) df.

(** The value of a field for one subject. *)
Definition field_value (x : field) (s : Subj) : result (exn E) cell :=
  match x with
  | FSubject => Ok (CStr (name s))
  | FClass => Ok (CStr (group s))
  | FAge => Ok (CInt (age s))
  | FNwindowsEyesc => Ok (CInt (nwins_eyesc s))
  | FNwindowsEyeso => Ok (CInt (nwins_eyeso s))
  | FSlope ch slope_type => CNum <$> slope_of s ch (slope_type +:+ "_slope")
  end.

(** A column that is the list comprehension of some field over the
    subjects. *)
Definition per_subject_column (d : SubjDict) (c : string * list cell) : Prop :=
  exists x, per_subject d (field_value x) = Ok (snd c).

(** The channel list the loops of lines 245-248 go through: the first
    [nbchan] labels of [subj[0]]. *)
Definition channel_list (s0 : Subj) : list string := take (nbchan s0) (chans s0).

(** The column names in the order the script adds them. *)
Definition expected_columns (s0 : Subj) : list string :=
  (meta_columns ++
   map (fun c => c +:+ "_EYESC") (channel_list s0) ++
   map (fun c => c +:+ "_EYESO") (channel_list s0))%list.

(** Lines 237-255. *)
Definition a_export : Action := fun st =>
  match build_table (subj st) with
  | Raise e => Raised e st
  | Ok df =>
      let p := params st in
      let filename := export_dir p +:+ "rs-full-" +:+ montage p +:+ "-" +:+
                      fitting_func p +:+ "-" +:+ str_num (fitting_lofreq p) +:+ "-" +:+
                      str_num (fitting_hifreq p) +:+ ".csv" in
      Done (emit (EToCsv filename df)
                 (emit (EPrint ("Saving fitted slopes at:" +:+ nl +:+ " " +:+ filename)) st))
  end.

(** The statements of the loop of lines 198-225, for indices from [i]. *)
Fixpoint loop_from (df : list Row) (i : nat) (fl : list string) : list Action :=
  match fl with
  | [] => []
  | f :: rest => (loop_body df i f ++ loop_from df (i + 1) rest)%list
  end.

(** Lines 167-255, with the locals [matfiles] (line 179) and [df]
    (lines 180-183) read from the environment under the parameters [p] in
    force when the configuration is established. *)
Definition pipeline (w : World) (p : Params) : list Action :=
  let matfiles := get_filelist (w_fs w) (import_dir_mat p) "mat" in
  let df := w_csv w (import_path_csv p) in
  let fl := default [] matfiles in
  ([a_write_params; a_check_missing matfiles df; a_init_subj fl] ++
   loop_from df 0 fl ++
   [a_save_npy; a_export])%list.

(** The state in which [main] starts: [defaults] is the dictionary of lines
    104-117, which the user edits before running. *)
Definition initial_state (defaults : Params) : RunState :=
  mkRunState defaults (mkSubjDict None ∅ None) [].

Definition main (defaults : Params) (w : World) : outcome :=
  match run (config_actions w) (initial_state defaults) with
  | Raised e st => Raised e st
  | Done st0 => run (pipeline w (params st0)) st0
  end.

(** A result that raises nothing but exceptions with the property [P]. *)
Definition raises_only {A} (P : exn E -> Prop) (r : result (exn E) A) : Prop :=
  forall e, r = Raise e -> P e.

(** The exceptions of a failed subscript or column assignment. *)
Definition lookup_error (e : exn E) : Prop :=
  e = KeyError \/ e = IndexError \/ e = ValueError.

(** The state in which the loop of line 198 starts, when the configuration
    was established in [st0] and every recording of [fl] has metadata. *)
Definition loop_start (st0 : RunState) (fl : list string) : RunState :=
  mkRunState (params st0) (mkSubjDict (Some (length fl)) ∅ None)
             (trace st0 ++ params_log (params st0))%list.

(** The state in which the configuration is established, when it is. *)
Definition established (defaults : Params) (w : World) : RunState :=
  final_state (run (config_actions w) (initial_state defaults)).

(** The table a run has exported, if it has. *)
Definition exported_table (tr : list Event) : option DataFrame :=
  List.last (map (fun e => match e with EToCsv _ df => Some df | _ => None end) tr) None.

(** The validation the specification asks for (section 4.3):
    [lo <= buf_lo <= buf_hi <= hi]. *)
Definition valid_frequency_order (p : Params) : bool :=
  Qle_bool (fitting_lofreq p) (psd_buffer_lofreq p) &&
  Qle_bool (psd_buffer_lofreq p) (psd_buffer_hifreq p) &&
  Qle_bool (psd_buffer_hifreq p) (fitting_hifreq p).

(** A run that ended with an exception before any subject was announced,
    constructed or processed. *)
Definition stopped_before_any_subject (o : outcome) : Prop :=
  exists e st, o = Raised e st /\ Forall (fun ev => subject_event ev = false) (trace st).

End Main.

(** ** The [Subject] class, from the specification

    [subject.py] is not among the sources.  The definitions of this module
    follow sections 3, 4.1-4.4 and 7 of the specification. *)

Module SubjectSpec.

(** Modelled from the spec: the two recording conditions of a subject
    (section 3); the class [Subject] that would define them is missing. *)
Inductive condition : Type := EyesClosed | EyesOpen.

Definition condition_key (c : condition) : string :=
  match c with EyesClosed => "eyesc" | EyesOpen => "eyeso" end.

(** Modelled from the spec: the error taxonomy of section 7 for the missing
    class [Subject]; every error names subject, channel and condition. *)
Inductive error : Type :=
| InsufficientData (subject channel : string) (c : condition)
| InsufficientSamples (subject channel : string) (c : condition)
| InvalidState (subject : string)
| UnknownFittingFunction (func : string)
| RecordingNotLoaded (matfile : string).

(** Modelled from the spec: the state machine of section 4.4 of the missing
    class [Subject]. *)
Inductive stage : Type := Raw | Modified | PSDsComputed | SlopesFitted.

(** *** Windowing Engine (section 4.1) *)

(** Modelled from the spec: the sequential, non-overlapping segmentation of
    the missing method [compute_ch_psds]: cut [L] samples off the front
    while at least [L] remain; the trailing partial window is discarded.
    [fuel] bounds the number of windows. *)
Fixpoint segment_from (fuel L : nat) (signal : list Q) : list (list Q) :=
  match fuel with
  | 0 => []
  | S fuel' =>
      if (0 <? L)%nat && (L <=? length signal)%nat
      then take L signal :: segment_from fuel' L (drop L signal)
      else []
  end.

(** Modelled from the spec: the windows of a signal (section 4.1); a signal
    of [T] samples has no more than [T] windows. *)
Definition segment (L : nat) (signal : list Q) : list (list Q) :=
  segment_from (length signal) L signal.

(** Modelled from the spec: the upper limit on the window count of the
    missing method [compute_ch_psds] (section 4.1): 0 means unlimited,
    otherwise the sequence is cut to at most [cap] windows. *)
Definition windowing (L cap : nat) (signal : list Q) : list (list Q) :=
  let ws := segment L signal in
  if (cap =? 0)%nat then ws else take cap ws.

(** Modelled from the spec: the trial-length modification of the missing
    method [modify_trial_length] (section 4.1): the usable signal is
    restricted to the seconds from [a] to [b], at [srate] samples a second. *)
Definition restrict (srate : nat) (a b : Z) (signal : list Q) : list Q :=
  take ((Z.to_nat b - Z.to_nat a) * srate) (drop (Z.to_nat a * srate) signal).

Section Numerics.

(** The spectral estimate of one window (power at each frequency of the
    grid), the logarithm, and the two fitting strategies, each returning
    (slope, intercept): numerical routines, left open. *)
Variable spectrum : list Q -> list Q.
Variable ln : Q -> Q.
Variable linreg ransac : list (Q * Q) -> Q * Q.

(** The frequency grid, the window length in samples and the sample rate:
    the same for every channel and subject of a run. *)
Variable freqs : list Q.
Variable window_length : nat.
Variable srate : nat.

(** *** Spectral Estimator (section 4.2) *)

(** Modelled from the spec: the sum of spectra bin by bin, for the average
    of section 4.2 (the estimator of the missing class [Subject]). *)
Definition add_spectra (p q : list Q) : list Q := zip_with Qplus p q.

(** Modelled from the spec: the arithmetic mean in power over the windows
    (section 4.2). *)
Definition average_spectra (ps : list (list Q)) : list Q :=
  match ps with
  | [] => []
  | p :: rest =>
      map (fun x => Qdiv x (inject_Z (Z.of_nat (length ps)))) (foldl add_spectra p rest)
  end.

(** Modelled from the spec: the averaged PSD record of one channel and
    condition (sections 3 and 4.2): an empty window sequence fails, it does
    not give a spectrum. *)
Definition estimate_psd (subject channel : string) (c : condition)
    (windows : list (list Q)) : result error (list (Q * Q)) :=
  match windows with
  | [] => Raise (InsufficientData subject channel c)
  | _ => Ok (zip freqs (average_spectra (map spectrum windows)))
  end.

(** Modelled from the spec: windowing followed by spectral estimation for
    one channel and condition (the core of the missing [compute_ch_psds]);
    the window count is a byproduct (section 4.4). *)
Definition channel_psd (subject channel : string) (c : condition) (cap : nat)
    (signal : list Q) : result error (nat * list (Q * Q)) :=
  let ws := windowing window_length cap signal in
  psd ← estimate_psd subject channel c ws;
  Ok (length ws, psd).

(** *** Slope Fitter (section 4.3) *)

Definition in_fit_range (lo hi f : Q) : bool := Qle_bool lo f && Qle_bool f hi.

(** [f] lies in the open interval (buf_lo, buf_hi). *)
Definition in_buffer (buf_lo buf_hi f : Q) : bool :=
  negb (Qle_bool f buf_lo) && negb (Qle_bool buf_hi f).

(** Modelled from the spec: the sample selection of the missing method
    [fit_slopes] (section 4.3): frequency in [lo, hi] and not in
    (buf_lo, buf_hi). *)
Definition select_samples (buf_lo buf_hi lo hi : Q) (psd : list (Q * Q)) : list (Q * Q) :=
  List.filter (fun s => in_fit_range lo hi (fst s) && negb (in_buffer buf_lo buf_hi (fst s))) psd.

(** Modelled from the spec: both axes on a log scale (section 4.3). *)
Definition log_log (samples : list (Q * Q)) : list (Q * Q) :=
  map (fun s => (ln (fst s), ln (snd s))) samples.

(** Modelled from the spec: the two strategies by their selector (sections
    4.3 and 6; the names are those of the docstring of [main]). *)
Definition strategy (func : string) : option (list (Q * Q) -> Q * Q) :=
  if String.eqb func "linreg" then Some linreg
  else if String.eqb func "ransac" then Some ransac
  else None.

(** Modelled from the spec: the fit of one PSD record (section 4.3), the
    core of the missing method [fit_slopes], with the arguments in the order
    [main] passes them (lines 222-224): fewer than two samples fail. *)
Definition fit_psd (subject channel : string) (c : condition) (func : string)
    (buf_lo buf_hi lo hi : Q) (psd : list (Q * Q)) : result error (Q * Q) :=
  match strategy func with
  | None => Raise (UnknownFittingFunction func)
  | Some fit =>
      let samples := select_samples buf_lo buf_hi lo hi psd in
      if (length samples <? 2)%nat then Raise (InsufficientSamples subject channel c)
      else Ok (fit (log_log samples))
  end.

(** *** Subject Aggregator (section 4.4) *)

(** Modelled from the spec: one channel of a subject of the missing class
    [Subject] (section 3): its label, its signal in each condition, its PSD
    records and its fit results (slope, intercept). *)
Record channel : Type := mkChannel {
  label : string;
  sig_eyesc : list Q;
  sig_eyeso : list Q;
  psd_eyesc : list (Q * Q);
  psd_eyeso : list (Q * Q);
  fit_eyesc : option (Q * Q);
  fit_eyeso : option (Q * Q)
}.

(** Modelled from the spec: the subject record of section 3 (the missing
    class [Subject]). *)
Record subject : Type := mkSubject {
  s_id : string;
  s_group : string;
  s_age : Z;
  s_sex : string;
  s_stage : stage;
  s_channels : list channel;
  s_nwins_eyesc : nat;
  s_nwins_eyeso : nat
}.

(** The recording and event loaders (section 6): the identity and, for each
    channel, its label and its eyes-closed and eyes-open signals. *)
Variable load : string -> string -> option (string * list (string * list Q * list Q)).

(** Modelled from the spec: the missing constructor [Subject(...)]: a
    subject in stage [Raw] (sections 3 and 4.4). *)
Definition new (matfile evtfile grp : string) (a : Z) (sex : string) : result error subject :=
  match load matfile evtfile with
  | None => Raise (RecordingNotLoaded matfile)
  | Some (id, chs) =>
      Ok (mkSubject id grp a sex Raw
            (map (fun c => mkChannel (fst (fst c)) (snd (fst c)) (snd c) [] [] None None) chs)
            0 0)
  end.

(** Modelled from the spec: the missing method [modify_trial_length]
    (sections 4.1 and 4.4): a transform of the raw signal, applied once. *)
Definition modify (a b : Z) (s : subject) : result error subject :=
  match s_stage s with
  | Raw =>
      Ok (mkSubject (s_id s) (s_group s) (s_age s) (s_sex s) Modified
            (map (fun c => mkChannel (label c) (restrict srate a b (sig_eyesc c))
                             (restrict srate a b (sig_eyeso c))
                             (psd_eyesc c) (psd_eyeso c) (fit_eyesc c) (fit_eyeso c))
                 (s_channels s))
            (s_nwins_eyesc s) (s_nwins_eyeso s))
  | _ => Raise (InvalidState (s_id s))
  end.

(** Modelled from the spec: one channel of the missing method
    [compute_ch_psds]: both conditions, with their window counts. *)
Definition compute_channel (id : string) (cap : nat) (c : channel)
  : result error (nat * nat * channel) :=
  ec ← channel_psd id (label c) EyesClosed cap (sig_eyesc c);
  eo ← channel_psd id (label c) EyesOpen cap (sig_eyeso c);
  Ok (fst ec, fst eo,
      mkChannel (label c) (sig_eyesc c) (sig_eyeso c) (snd ec) (snd eo)
                (fit_eyesc c) (fit_eyeso c)).

(** Modelled from the spec: the missing method [compute_ch_psds]
    (section 4.4); the window counts recorded are those of the last
    channel. *)
Definition compute (cap : Z) (s : subject) : result error subject :=
  match s_stage s with
  | Raw | Modified =>
      rs ← mapM (compute_channel (s_id s) (Z.to_nat cap)) (s_channels s);
      let counts := List.last (map fst rs) (0, 0) in
      Ok (mkSubject (s_id s) (s_group s) (s_age s) (s_sex s) PSDsComputed
            (map snd rs) (fst counts) (snd counts))
  | _ => Raise (InvalidState (s_id s))
  end.

(** Modelled from the spec: one channel of the missing method
    [fit_slopes]. *)
Definition fit_channel (id func : string) (buf_lo buf_hi lo hi : Q) (c : channel)
  : result error channel :=
  fc ← fit_psd id (label c) EyesClosed func buf_lo buf_hi lo hi (psd_eyesc c);
  fo ← fit_psd id (label c) EyesOpen func buf_lo buf_hi lo hi (psd_eyeso c);
  Ok (mkChannel (label c) (sig_eyesc c) (sig_eyeso c) (psd_eyesc c) (psd_eyeso c)
                (Some fc) (Some fo)).

(** Modelled from the spec: the missing method [fit_slopes] (section 4.4):
    fitting before the PSDs are computed is an invalid-state error. *)
Definition fit (func : string) (buf_lo buf_hi lo hi : Q) (s : subject) : result error subject :=
  match s_stage s with
  | PSDsComputed =>
      cs ← mapM (fit_channel (s_id s) func buf_lo buf_hi lo hi) (s_channels s);
      Ok (mkSubject (s_id s) (s_group s) (s_age s) (s_sex s) SlopesFitted cs
            (s_nwins_eyesc s) (s_nwins_eyeso s))
  | _ => Raise (InvalidState (s_id s))
  end.

(** The stored slope records [psds[ch]['eyesc_slope']] and
    [psds[ch]['eyeso_slope']] that [get_subject_slopes] reads: slope first. *)
Definition slope_record (f : option (Q * Q)) : list Q :=
  match f with Some (slope, intercept) => [slope; intercept] | None => [] end.

Definition channel_record (c : channel) : gmap string (list Q) :=
  <["eyesc_slope" := slope_record (fit_eyesc c)]>
    (<["eyeso_slope" := slope_record (fit_eyeso c)]> ∅).

(** The specification's subject behind the interface [main] uses. *)
Definition ops : SubjectOps subject error := {|
  Subject := new;
  modify_trial_length := modify;
  compute_ch_psds := compute;
  fit_slopes := fit;
  name := s_id;
  group := s_group;
  age := s_age;
  nwins_eyesc := fun s => Z.of_nat (s_nwins_eyesc s);
  nwins_eyeso := fun s => Z.of_nat (s_nwins_eyeso s);
  nbchan := fun s => length (s_channels s);
  chans := fun s => map label (s_channels s);
  psds := fun s => map channel_record (s_channels s)
|}.

End Numerics.

End SubjectSpec.

(** ** A small cohort, to run the definitions on *)

Module Demo.

(** Stand-ins for the numerical routines: the power of each sample as the
    spectral estimate, the identity for the logarithm, and the line through
    the first and the last sample for both fits. *)
Definition spectrum (w : list Q) : list Q := map (fun x => Qmult x x) w.

Definition ln (q : Q) : Q := q.

Definition line_fit (samples : list (Q * Q)) : Q * Q :=
  match samples, List.last samples (0, 0)%Q with
  | (x0, y0) :: _, (x1, y1) =>
      let slope := Qred (Qdiv (Qminus y1 y0) (Qminus x1 x0)) in
      (slope, Qred (Qminus y0 (Qmult slope x0)))
  | [], _ => (0, 0)%Q
  end.

(** [str] on an integer-valued parameter. *)
Definition str_num (q : Q) : string := pretty (Qnum q).

Definition freqs : list Q := [2; 5; 10; 20]%Q.

(** Every recording has the channels [labels], nine samples with eyes
    closed and eight with eyes open. *)
Definition load (labels : list string) (matfile evtfile : string)
  : option (string * list (string * list Q * list Q)) :=
  Some (subject_name matfile,
        map (fun l => (l, [8; 4; 2; 1; 6; 3; 2; 1; 5]%Q, [4; 2; 1; 1; 4; 2; 1; 1]%Q)) labels).

(** The subject of the specification with windows of four samples, at one
    sample a second. *)
Definition ops (labels : list string) : SubjectOps SubjectSpec.subject SubjectSpec.error :=
  SubjectSpec.ops spectrum ln line_fit line_fit freqs 4 1 (load labels).

(** The import directory: two recordings, a text file, and an older
    recording one level down. *)
Definition tree : Node :=
  Folder [("s01.mat", File); ("notes.txt", File); ("s02.mat", File);
          ("old", Folder [("s03.mat", File)])].

Definition fs (path : string) : option Node :=
  if String.eqb path (import_dir_mat default_params) then Some tree else None.

Definition csv_both : list Row := [mkRow "s01" "DANE" 25 "F"; mkRow "s02" "SA" 70 "M"].


Definition world (opts : list (string * string)) (csv : list Row) : World :=
  mkWorld "2020-01-01" "0123456789abcdef" (Some opts)
          ["data/runs//2020-01-01-sensor-level/"] fs (fun _ => csv).

(** A configuration with the buffer outside the fitting range and reversed,
    to which the command line adds an unknown trial policy. *)
Definition bad_params : Params :=
  mkParams None None "sensor-level" true 30 1 "ransac" 2 24 "match_OA" 0
           "data/auxilliary/ya-oa.csv" "data/rs/full/source-dmn/MagCleanEvtFiltCAR-mat/"
           "data/rs/full/evt/clean/" "data/runs/".

Definition bad_opts : list (string * string) := [("-p", "no_such_protocol")].

(** The default configuration with a buffer from 1 to 30 Hz, which leaves no
    sample of the frequency grid to fit. *)
Definition wide_buffer_params : Params :=
  mkParams None None "sensor-level" true 1 30 "ransac" 2 24 "match_OA" 0
           "data/auxilliary/ya-oa.csv" "data/rs/full/source-dmn/MagCleanEvtFiltCAR-mat/"
           "data/rs/full/evt/clean/" "data/runs/".

(** A PSD record, and the same record with a spike at the frequencies
    strictly between 7 and 14. *)
Definition psd_plain : list (Q * Q) :=
  [(1, 10); (2, 8); (5, 5); (7, 4); (8, 3); (10, 3); (13, 2); (14, 2);
   (20, 1); (24, 1); (30, 1)]%Q.

Definition psd_spike : list (Q * Q) :=
  [(1, 10); (2, 8); (5, 5); (7, 4); (8, 300); (10, 900); (13, 200); (14, 2);
   (20, 1); (24, 1); (30, 1)]%Q.

(** The two recordings of the import directory. *)
Definition s01 : string := "data/rs/full/source-dmn/MagCleanEvtFiltCAR-mat/s01.mat".
Definition s02 : string := "data/rs/full/source-dmn/MagCleanEvtFiltCAR-mat/s02.mat".

(** Sixty samples, one a second. *)
Definition minute : list Q := replicate 60 1%Q.

(** An import directory with a recording, and a directory whose name ends
    like one and which holds a recording of its own. *)
Definition tree_with_folder : Node :=
  Folder [("s01.mat", File); ("old.mat", Folder [("s03.mat", File)])].

(** Forty samples, one a second: seven windows of one shape, then three of
    another, so that the first thirty seconds differ from the whole. *)
Definition long_signal : list Q :=
  (mjoin (replicate 7 [8; 4; 2; 1]%Q) ++ mjoin (replicate 3 [1; 2; 4; 8]%Q))%list.

(** Recordings of forty samples: the channels at even positions have
    [long_signal] with eyes closed and its reverse with eyes open, the
    others the other way round. *)
Definition load_long (labels : list string) (matfile evtfile : string)
  : option (string * list (string * list Q * list Q)) :=
  Some (subject_name matfile,
        imap (fun k l => if Nat.even k then (l, long_signal, rev long_signal)
                         else (l, rev long_signal, long_signal)) labels).

Definition ops_long (labels : list string) : SubjectOps SubjectSpec.subject SubjectSpec.error :=
  SubjectSpec.ops spectrum ln line_fit line_fit freqs 4 1 (load_long labels).

End Demo.

(** Closes a case of [loop_body_spec] once the outcome of the pass is
    known: the events are read off the trace, then each part is computed. *)
Ltac body_leaf j :=
  eexists; cbn;
  split; [rewrite <- ?app_assoc; cbn [app]; reflexivity|];
  cbn; rewrite ?Nat.eqb_refl; cbn;
  split_and!; try done;
  lazymatch goal with
  | |- forall i, i <> _ -> _ =>
      let i := fresh "i" in let Hi := fresh "Hi" in
      intros i Hi; apply Nat.eqb_neq in Hi; rewrite Nat.eqb_sym in Hi;
      rewrite ?Hi; cbn; apply Nat.eqb_neq in Hi;
      split; [reflexivity | rewrite ?lookup_insert_ne by done; reflexivity]
  | |- Forall _ _ => repeat constructor
  | |- _ `prefix_of` _ => eexists; cbn; reflexivity
  | |- forall r rs, _ = _ -> _ => intros ? ? [= <- <-]; eexists; reflexivity
  | |- exists s, _ /\ _ => eexists; split; [reflexivity | apply lookup_insert_eq]
  | |- _ = _ => reflexivity
  end.

(** * Properties *)

(** ** [get_filelist] *)

Lemma os_walk_folder top es :
  os_walk top (Folder es) =
  (top, Folder es) :: flat_map (fun e => os_walk (path_join top (fst e)) (snd e)) es.
Proof. reflexivity. Qed.

Lemma get_filelist_loop_first root d rest extension :
  get_filelist_loop ((root, d) :: rest) extension = Some (glob_star root d extension).
Proof. reflexivity. Qed.

Lemma glob_star_top_level root n extension :
  glob_star root (top_level_only n) extension = glob_star root n extension.
Proof.
  destruct n as [|es]; [reflexivity|].
  unfold glob_star; simpl.
  induction es as [|[nm sub] es IH]; [reflexivity|].
  simpl. rewrite !filter_cons. simpl.
  destruct (decide (fnmatch_star extension nm)); simpl; [f_equal|]; exact IH.
Qed.

(** C9, as the code has it: for an import path and an extension without
    the wildcard characters of [glob], and an extension without slash,
    [get_filelist] returns during the first iteration of its loop over the
    walk.  On a directory it is the [glob] of that directory alone: the
    entries of the import directory itself, plain files and directories
    alike, whose name ends in the extension and does not begin with a dot,
    in listing order, each joined to the import path (first equation).  The
    rest of the walk is never consulted (second equation), and what lies
    below the top level has no influence on the result (third equation).
    Where the path names no directory the walk is empty and the function
    falls off the loop, returning [None]. *)
Theorem get_filelist_top_directory_only (fs : string -> option Node)
    (import_path extension : string) :
  has_magic import_path = false ->
  has_magic extension = false ->
  contains "/"%char extension = false ->
  get_filelist fs import_path extension =
    match fs import_path with
    | Some (Folder es) =>
        Some (map (fun e => path_join (pattern_dirname import_path) (fst e))
                  (filter (fun e => fnmatch_star extension (fst e)) es))
    | _ => None
    end
  /\ (forall root d rest,
        get_filelist_loop ((root, d) :: rest) extension =
        get_filelist_loop [(root, d)] extension)
  /\ (forall n,
        get_filelist (fun _ => Some (top_level_only n)) import_path extension =
        get_filelist (fun _ => Some n) import_path extension).
Proof.
  intros _ _ _.
  split; [|split].
  - unfold get_filelist.
    destruct (fs import_path) as [[|es]|]; reflexivity.
  - intros root d rest. reflexivity.
  - intros [|es]; [reflexivity|].
    unfold get_filelist.
    change (top_level_only (Folder es)) with
      (Folder (map (fun e => (fst e, match snd e with File => File | Folder _ => Folder [] end)) es)).
    rewrite !os_walk_folder, !get_filelist_loop_first.
    f_equal. exact (glob_star_top_level import_path (Folder es) extension).
Qed.

Example get_filelist_demo :
  get_filelist Demo.fs (import_dir_mat default_params) "mat" =
  Some ["data/rs/full/source-dmn/MagCleanEvtFiltCAR-mat/s01.mat";
        "data/rs/full/source-dmn/MagCleanEvtFiltCAR-mat/s02.mat"].
Proof. reflexivity. Qed.

(** ** The run directory (lines 156-164) *)

Lemma string_length_app (s t : string) :
  String.length (s +:+ t) = String.length s + String.length t.
Proof. induction s as [|c s IH]; simpl; [reflexivity|]. rewrite IH. reflexivity. Qed.

Lemma string_app_inj_r (t s1 s2 : string) : s1 +:+ t = s2 +:+ t -> s1 = s2.
Proof.
  revert s2. induction s1 as [|c s1 IH]; intros [|c2 s2] H; simpl in H.
  - reflexivity.
  - apply (f_equal String.length) in H. rewrite !string_length_app in H. cbn in H. lia.
  - apply (f_equal String.length) in H. rewrite !string_length_app in H. cbn in H. lia.
  - cbn in H. injection H as -> H. f_equal. apply IH, H.
Qed.

(** The name tried for [num], and the one tried first. *)
Lemma numbered_name_inj (base : string) (k k' : nat) :
  base +:+ "-" +:+ pretty k +:+ "/" = base +:+ "-" +:+ pretty k' +:+ "/" -> k = k'.
Proof.
  intros H. apply String.app_inj in H. injection H as H.
  apply (inj pretty). exact (string_app_inj_r "/" (pretty k) (pretty k') H).
Qed.

Lemma numbered_name_not_first (base : string) (k : nat) :
  base +:+ "-" +:+ pretty k +:+ "/" <> base +:+ "/".
Proof. intros H. apply String.app_inj in H. discriminate. Qed.

Lemma free_dir_name_total (dirs : list string) (base : string) :
  forall (fuel num : nat) (cur : string) (taken : list string),
    length taken <= fuel ->
    (forall c, (c = cur \/ exists k, num <= k /\ c = base +:+ "-" +:+ pretty k +:+ "/") ->
               c ∈ dirs -> c ∈ taken) ->
    (forall k, num <= k -> base +:+ "-" +:+ pretty k +:+ "/" <> cur) ->
    exists d, free_dir_name (fun p => bool_decide (p ∈ dirs)) base fuel num cur = Some d.
Proof.
  induction fuel as [|fuel IH]; intros num cur taken Hlen Htaken Hcur; cbn.
  - case_bool_decide as Hin; [|eauto].
    apply Htaken in Hin; [|by left]. destruct taken; [by apply elem_of_nil in Hin | cbn in Hlen; lia].
  - case_bool_decide as Hin; [|eauto].
    apply (IH (num + 1) _ (filter (fun c => c <> cur) taken)).
    + pose proof (length_filter_lt (fun c => c <> cur) taken cur) as Hlt.
      specialize (Hlt (Htaken cur (or_introl eq_refl) Hin) (fun H => H eq_refl)). lia.
    + intros c Hc Hd. apply list_elem_of_filter. split.
      * destruct Hc as [->|(k & Hk & ->)]; apply Hcur; lia.
      * apply Htaken; [|exact Hd].
        destruct Hc as [->|(k & Hk & ->)]; right; [exists num | exists k]; (split; [lia | reflexivity]).
    + intros k Hk Heq. apply numbered_name_inj in Heq. lia.
Qed.

Lemma free_dir_name_free (isdir : string -> bool) (base : string) :
  forall (fuel num : nat) (cur d : string),
    free_dir_name isdir base fuel num cur = Some d -> isdir d = false.
Proof.
  induction fuel as [|fuel IH]; intros num cur d; cbn.
  - destruct (isdir cur) eqn:Hc; [discriminate|]. by intros [= <-].
  - destruct (isdir cur) eqn:Hc; [apply IH|]. by intros [= <-].
Qed.

(** The loop of lines 158-162 ends within as many iterations as there are
    directories, on a name that is not taken: [c_mkdir] never runs out of
    fuel. *)
Theorem run_dir_name_found (w : World) (base : string) :
  exists d, free_dir_name (isdir w) base (length (w_dirs w)) 1 (base +:+ "/") = Some d
            /\ isdir w d = false.
Proof.
  destruct (free_dir_name_total (w_dirs w) base (length (w_dirs w)) 1 (base +:+ "/")
              (w_dirs w)) as [d Hd].
  - lia.
  - intros c _ Hc. exact Hc.
  - intros k _. apply numbered_name_not_first.
  - exists d. split; [exact Hd|]. exact (free_dir_name_free _ _ _ _ _ _ Hd).
Qed.

(** ** Statements in sequence *)

Section MainProperties.
Context {Subj E : Type} {Sops : SubjectOps Subj E}.
Variable str_num : Q -> string.

Local Abbreviation state := (RunState (Subj:=Subj)).
Local Abbreviation action := (Action (Subj:=Subj) (E:=E)).
Implicit Types (st : state) (acts xs ys : list action).

Lemma run_app xs ys st :
  run (xs ++ ys) st =
  match run xs st with
  | Done st' => run ys st'
  | Raised e st' => Raised e st'
  end.
Proof.
  revert st. induction xs as [|a xs IH]; intros st; simpl; [reflexivity|].
  destruct (a st); [apply IH | reflexivity].
Qed.

Lemma history_app xs ys st :
  history (xs ++ ys) st =
  (history xs st ++
   match run xs st with
   | Done st' => history ys st'
   | Raised _ _ => []
   end)%list.
Proof.
  revert st. induction xs as [|a xs IH]; intros st; simpl; [reflexivity|].
  destruct (a st); simpl; [f_equal; apply IH | reflexivity].
Qed.

(** ** The parameters after the configuration *)

Lemma history_keeps_params acts st0 :
  Forall keeps_params acts ->
  Forall (fun st => params st = params st0) (history acts st0).
Proof.
  intros H. revert st0. induction H as [|a acts Ha _ IH]; intros st0; simpl.
  - constructor.
  - specialize (Ha st0). destruct (a st0) as [st'|e st']; simpl in Ha.
    + constructor; [exact Ha|]. rewrite <- Ha. apply IH.
    + constructor; [exact Ha | constructor].
Qed.

Lemma run_keeps_params acts st0 :
  Forall keeps_params acts -> params (final_state (run acts st0)) = params st0.
Proof.
  intros H. revert st0. induction H as [|a acts Ha _ IH]; intros st0; simpl; [reflexivity|].
  specialize (Ha st0). destruct (a st0) as [st'|e st']; simpl in *; [|exact Ha].
  rewrite IH. exact Ha.
Qed.

Lemma params_foldl_emit {A} (f : A -> Event) (l : list A) (st : state) :
  params (foldl (fun s x => emit (f x) s) st l) = params st.
Proof. revert st. induction l as [|x l IH]; intros st; simpl; [reflexivity|]. rewrite IH. reflexivity. Qed.

Lemma keeps_params_call_method i c (m : Subj -> result E Subj) :
  keeps_params (call_method i c m).
Proof.
  intros st. unfold call_method.
  destruct (items (subj st) !! i); [|reflexivity].
  destruct (m _); reflexivity.
Qed.

Lemma keeps_params_write_params : keeps_params (a_write_params str_num : action).
Proof.
  intros st. unfold a_write_params. simpl.
  generalize (map (fun kv : string * string => " " +:+ fst kv +:+ ": " +:+ snd kv)
                  (params_items str_num (params st))).
  intros lines.
  assert (H : forall s : state, params (foldl (fun s line =>
              emit (EWrite (export_dir (params st) +:+ "parameters.txt") (line +:+ nl))
                   (emit (EPrint line) s)) s lines) = params s).
  { induction lines as [|x l IH]; intros s; simpl; [reflexivity|]. rewrite IH. reflexivity. }
  rewrite H. reflexivity.
Qed.

Lemma keeps_params_check_missing matfiles df :
  keeps_params (a_check_missing matfiles df : action).
Proof.
  intros st. unfold a_check_missing.
  destruct matfiles as [fl|]; [|reflexivity].
  case_bool_decide; [|reflexivity].
  simpl. apply (params_foldl_emit (fun m => EPrint (missing_line m))).
Qed.

Lemma keeps_params_loop_body df i f : Forall keeps_params (loop_body df i f).
Proof.
  unfold loop_body. repeat constructor; intros st; try reflexivity.
  - unfold a_construct. destruct (rows_of _ _); [reflexivity|].
    destruct (Subject _ _ _ _ _); reflexivity.
  - unfold a_modify. destruct (rows_of _ _); [reflexivity|].
    destruct (modifies _ _); [apply keeps_params_call_method | reflexivity].
  - apply keeps_params_call_method.
  - apply keeps_params_call_method.
Qed.

Lemma keeps_params_loop_from df i fl : Forall keeps_params (loop_from df i fl).
Proof.
  revert i. induction fl as [|f fl IH]; intros i; cbn [loop_from]; [constructor|].
  apply Forall_app. split; [apply keeps_params_loop_body | apply IH].
Qed.

Lemma keeps_params_save_npy : keeps_params (a_save_npy str_num : action).
Proof. intros st. unfold a_save_npy. destruct (p_Time _); reflexivity. Qed.

Lemma keeps_params_export : keeps_params (a_export str_num).
Proof. intros st. unfold a_export. destruct (build_table _); reflexivity. Qed.

Lemma keeps_params_pipeline w p : Forall keeps_params (pipeline str_num w p).
Proof.
  unfold pipeline. apply Forall_app. split.
  - repeat constructor; try (intros st; reflexivity).
    + apply keeps_params_write_params.
    + apply keeps_params_check_missing.
  - apply Forall_app. split; [apply keeps_params_loop_from|].
    repeat constructor; [apply keeps_params_save_npy | apply keeps_params_export].
Qed.

(** C8: once the configuration is established (state [st0], after line
    164), no statement of the run changes the run parameters: in the state
    left by every statement of lines 167-255, whether it ended normally or
    with an exception, [params] is what it was in [st0]. *)
Theorem params_not_mutated_after_initialization (w : World) st0 :
  Forall (fun st => params st = params st0)
         (history (pipeline str_num w (params st0)) st0).
Proof. apply history_keeps_params, keeps_params_pipeline. Qed.

(** ** The trace of the configuration and of the parameter log *)

Lemma foldl_emit {A} (f : A -> Event) (l : list A) (st : state) :
  foldl (fun s x => emit (f x) s) st l =
  mkRunState (params st) (subj st) (trace st ++ map f l).
Proof.
  revert st. induction l as [|x l IH]; intros st; simpl.
  - rewrite app_nil_r. destruct st; reflexivity.
  - rewrite IH. simpl. rewrite <- app_assoc. reflexivity.
Qed.

Lemma a_write_params_done st :
  (a_write_params str_num : action) st =
  Done (mkRunState (params st) (subj st) (trace st ++ params_log str_num (params st))).
Proof.
  unfold a_write_params, params_log. f_equal.
  generalize (map (fun kv : string * string => " " +:+ fst kv +:+ ": " +:+ snd kv)
                  (params_items str_num (params st))).
  intros lines.
  assert (H : forall s : state,
            foldl (fun s line =>
                     emit (EWrite (export_dir (params st) +:+ "parameters.txt") (line +:+ nl))
                          (emit (EPrint line) s)) s lines =
            mkRunState (params s) (subj s)
              (trace s ++ flat_map (fun line =>
                 [EPrint line; EWrite (export_dir (params st) +:+ "parameters.txt") (line +:+ nl)])
                 lines)).
  { induction lines as [|x l IH]; intros s; simpl.
    - rewrite app_nil_r. destruct s; reflexivity.
    - rewrite IH. simpl. rewrite <- !app_assoc. reflexivity. }
  rewrite H. unfold emit. simpl. rewrite <- !app_assoc. reflexivity.
Qed.

Lemma apply_opts_done opts st st' :
  (apply_opts opts st : outcome (E:=E)) = Done st' ->
  trace st' = trace st /\ subj st' = subj st /\ p_Time (params st') = p_Time (params st).
Proof.
  revert st. induction opts as [|[opt arg] opts IH]; intros st; simpl.
  - intros [= <-]. auto.
  - repeat (case_match; try discriminate);
      intros Hrun; apply IH in Hrun; simpl in Hrun; exact Hrun.
Qed.

(** A configuration that is established has made the run directory and
    nothing else. *)
Lemma config_done defaults w st0 :
  run (config_actions w : list action) (initial_state defaults) = Done st0 ->
  trace st0 = [EMkdir (export_dir (params st0))] /\
  subj st0 = mkSubjDict None ∅ None /\
  p_Time (params st0) = Some (w_today w).
Proof.
  unfold config_actions, run, c_time, c_commit, c_getopt, c_mkdir. simpl.
  destruct (w_getopt w) as [opts|]; [|discriminate].
  destruct (apply_opts opts _) as [st1|] eqn:Hopts; [|discriminate].
  apply apply_opts_done in Hopts. simpl in Hopts. destruct Hopts as (Htr & Hsubj & Htime).
  rewrite Htime.
  destruct (free_dir_name _ _ _ _ _) as [d|]; [|discriminate].
  intros [= <-]. simpl. rewrite Htr, Hsubj. auto.
Qed.

Lemma prefix_false_space (line : string) : String.prefix "Processing: " (" " +:+ line) = false.
Proof. reflexivity. Qed.

Lemma params_log_quiet p :
  Forall (fun e => subject_event e = false /\ result_output e = false)
         (params_log str_num p).
Proof.
  unfold params_log. apply Forall_cons. split; [split; reflexivity|].
  apply Forall_app. split; [|repeat constructor].
  apply Forall_flat_map, Forall_map, Forall_forall. intros kv _.
  repeat constructor.
Qed.

(** ** One pass of the loop *)

Lemma calls_on_app i (xs ys : list Event) :
  calls_on i (xs ++ ys) = (calls_on i xs ++ calls_on i ys)%list.
Proof. apply omap_app. Qed.

Lemma calls_on_print i t (l : list Event) : calls_on i (EPrint t :: l) = calls_on i l.
Proof. reflexivity. Qed.

Local Arguments call_method : simpl never.
Local Arguments modifies : simpl never.
Local Arguments rows_of : simpl never.
Local Arguments subject_name : simpl never.

Lemma call_method_found i c (m : Subj -> result E Subj) st s :
  items (subj st) !! i = Some s ->
  call_method i c m st =
  match m s with
  | Ok s' =>
      Done (mkRunState (params st)
              (mkSubjDict (nbsubj (subj st)) (<[i := s']> (items (subj st)))
                          (time_computed (subj st)))
              (trace st ++ [ECall i c]))
  | Raise e =>
      Raised (SubjectRaised e) (mkRunState (params st) (subj st) (trace st ++ [ECall i c]))
  end.
Proof. intros H. unfold call_method. rewrite H. destruct (m s); reflexivity. Qed.

(** What one pass of the loop does, for index [j] and file [f], from any
    state: it announces the subject, touches no other entry of [subj],
    leaves the parameters alone, writes no result, and makes on [subj[j]] the
    calls of [expected_calls], in that order, up to the first exception. *)
Lemma loop_body_spec (df : list Row) (j : nat) (f : string) st :
  exists evs,
    let o := run (loop_body df j f) st in
    trace (final_state o) = (trace st ++ EPrint ("Processing: " +:+ subject_name f) :: evs)%list
    /\ params (final_state o) = params st
    /\ nbsubj (subj (final_state o)) = nbsubj (subj st)
    /\ time_computed (subj (final_state o)) = time_computed (subj st)
    /\ (forall i, i <> j ->
          calls_on i evs = [] /\ items (subj (final_state o)) !! i = items (subj st) !! i)
    /\ Forall (fun e => result_output e = false) evs
    /\ calls_on j evs `prefix_of` expected_calls (params st) df f
    /\ (forall r rs, rows_of df (subject_name f) = r :: rs ->
          exists evs', evs = ECall j (CNew f (import_dir_evt (params st) +:+ subject_name f +:+ ".evt")
                                        (CLASS r) (AGE r) (SEX r)) :: evs')
    /\ match o with
       | Done st' =>
           calls_on j evs = expected_calls (params st) df f /\
           exists s, processed (params st) df f = Ok s /\ items (subj st') !! j = Some s
       | Raised e _ => e <> MissingSubjectInformation
       end.
Proof.
  unfold loop_body, expected_calls, processed.
  cbn [run a_print]. unfold a_construct, a_modify, a_compute, a_fit. cbn.
  destruct (rows_of df (subject_name f)) as [|r rs] eqn:Hrows.
  { eexists []. cbn. split_and!; done. }
  destruct (Subject f _ (CLASS r) (AGE r) (SEX r)) as [s1|e1] eqn:Hnew.
  2:{ body_leaf j. }
  cbn.
  destruct (modifies (params st) (CLASS r)) eqn:Hmod.
  - rewrite (call_method_found j _ _ _ s1) by (cbn; apply lookup_insert_eq).
    destruct (modify_trial_length 0 30 s1) as [s2|e2] eqn:Hm; [|body_leaf j].
    cbn.
    rewrite (call_method_found j _ _ _ s2) by (cbn; apply lookup_insert_eq).
    destruct (compute_ch_psds _ s2) as [s3|e3] eqn:Hc; [|body_leaf j].
    cbn.
    rewrite (call_method_found j _ _ _ s3) by (cbn; apply lookup_insert_eq).
    destruct (fit_slopes _ _ _ _ _ s3) as [s4|e4] eqn:Hf; body_leaf j.
  - cbn.
    rewrite (call_method_found j _ _ _ s1) by (cbn; apply lookup_insert_eq).
    destruct (compute_ch_psds _ s1) as [s3|e3] eqn:Hc; [|body_leaf j].
    cbn.
    rewrite (call_method_found j _ _ _ s3) by (cbn; apply lookup_insert_eq).
    destruct (fit_slopes _ _ _ _ _ s3) as [s4|e4] eqn:Hf; body_leaf j.
Qed.


(** ** The whole loop *)

(** The loop of lines 198-225 over the files [fl], numbered from [k]. *)
Lemma loop_from_spec (df : list Row) (fl : list string) : forall (k : nat) st,
  exists evs,
    let o := run (loop_from df k fl) st in
    trace (final_state o) = (trace st ++ evs)%list
    /\ params (final_state o) = params st
    /\ nbsubj (subj (final_state o)) = nbsubj (subj st)
    /\ time_computed (subj (final_state o)) = time_computed (subj st)
    /\ (forall i, i < k ->
          calls_on i evs = [] /\ items (subj (final_state o)) !! i = items (subj st) !! i)
    /\ Forall (fun e => result_output e = false) evs
    /\ (forall j, calls_on (k + j) evs `prefix_of`
                  from_option (expected_calls (params st) df) [] (fl !! j))
    /\ (forall f rest, fl = f :: rest ->
          exists evs', evs = EPrint ("Processing: " +:+ subject_name f) :: evs' /\
            forall r rs, rows_of df (subject_name f) = r :: rs ->
              exists evs'', evs' = ECall k (CNew f (import_dir_evt (params st) +:+
                                      subject_name f +:+ ".evt") (CLASS r) (AGE r) (SEX r)) :: evs'')
    /\ match o with
       | Done st' =>
           forall j f, fl !! j = Some f ->
             calls_on (k + j) evs = expected_calls (params st) df f /\
             exists s, processed (params st) df f = Ok s /\ items (subj st') !! (k + j) = Some s
       | Raised e _ => e <> MissingSubjectInformation
       end.
Proof.
  induction fl as [|f fl IH]; intros k st.
  { exists []. cbn. rewrite app_nil_r. split_and!; done. }
  cbn [loop_from]. rewrite run_app.
  destruct (loop_body_spec df k f st) as (evs1 & H1). cbn zeta in H1.
  destruct H1 as (Htr1 & Hp1 & Hn1 & Ht1 & Hoth1 & Hout1 & Hpre1 & Hnew1 & Hres1).
  destruct (run (loop_body df k f) st) as [st1|e1 st1] eqn:Hbody; cbn [final_state] in *.
  - destruct (IH (k + 1) st1) as (evs2 & H2). cbn zeta in H2.
    destruct H2 as (Htr2 & Hp2 & Hn2 & Ht2 & Hoth2 & Hout2 & Hpre2 & _ & Hres2).
    exists (EPrint ("Processing: " +:+ subject_name f) :: evs1 ++ evs2)%list.
    cbn zeta.
    assert (Hk : calls_on k evs2 = [] /\
                 items (subj (final_state (run (loop_from df (k + 1) fl) st1))) !! k =
                 items (subj st1) !! k) by (apply Hoth2; lia).
    split_and!.
    + rewrite Htr2, Htr1, <- app_assoc. reflexivity.
    + congruence.
    + congruence.
    + congruence.
    + intros i Hi. destruct (Hoth1 i) as [Hc1 Hi1]; [lia|].
      destruct (Hoth2 i) as [Hc2 Hi2]; [lia|].
      split; [rewrite calls_on_print, calls_on_app, Hc1, Hc2; reflexivity | congruence].
    + constructor; [reflexivity|]. apply Forall_app. done.
    + intros [|j].
      * rewrite Nat.add_0_r. cbn [lookup list_lookup from_option].
        rewrite calls_on_print.
        rewrite calls_on_app, (proj1 Hk), app_nil_r. exact Hpre1.
      * replace (k + S j) with (k + 1 + j) by lia. cbn [lookup list_lookup].
        rewrite calls_on_print.
        rewrite calls_on_app, (proj1 (Hoth1 (k + 1 + j) ltac:(lia))). cbn [app].
        rewrite <- Hp1. apply Hpre2.
    + intros f' rest [= <- <-]. eexists. split; [reflexivity|].
      intros r rs Hr. destruct (Hnew1 r rs Hr) as [evs' ->]. eexists. reflexivity.
    + destruct (run (loop_from df (k + 1) fl) st1) as [st2|e2 st2]; [|exact Hres2].
      cbn [final_state] in *. destruct Hres1 as [Hc1 (s & Hs & Hit)].
      intros [|j] f'.
      * rewrite Nat.add_0_r. cbn [lookup list_lookup]. intros [= <-].
        rewrite calls_on_print.
        rewrite calls_on_app, (proj1 Hk), app_nil_r. split; [exact Hc1|].
        exists s. split; [exact Hs|]. rewrite (proj2 Hk). exact Hit.
      * replace (k + S j) with (k + 1 + j) by lia. cbn [lookup list_lookup]. intros Hf.
        rewrite calls_on_print.
        rewrite calls_on_app, (proj1 (Hoth1 (k + 1 + j) ltac:(lia))). cbn [app].
        rewrite <- Hp1. apply Hres2. exact Hf.
  - exists (EPrint ("Processing: " +:+ subject_name f) :: evs1). cbn zeta. cbn [final_state].
    split_and!; try done.
    + intros i Hi. destruct (Hoth1 i) as [Hc1 Hi1]; [lia|]. done.
    + constructor; [reflexivity | exact Hout1].
    + intros [|j].
      * rewrite Nat.add_0_r. exact Hpre1.
      * rewrite calls_on_print.
        rewrite (proj1 (Hoth1 (k + S j) ltac:(lia))). apply prefix_nil.
    + intros f' rest [= <- <-]. eexists. split; [reflexivity|]. exact Hnew1.
Qed.

(** ** List comprehensions over the subjects *)

Lemma mapM_result_Ok {X A B} (f : A -> result X B) (l : list A) (k : list B) :
  mapM f l = Ok k -> Forall2 (fun a b => f a = Ok b) l k.
Proof.
  revert k. induction l as [|a l IH]; intros k; cbn.
  - intros [= <-]. constructor.
  - destruct (f a) as [b|e] eqn:Hfa; cbn; [|discriminate].
    destruct (mapM f l) as [k'|e]; cbn; [|discriminate].
    intros [= <-]. constructor; [exact Hfa | apply IH; reflexivity].
Qed.

Lemma mapM_result_Raise {X A B} (f : A -> result X B) (l : list A) (e : X) :
  mapM f l = Raise e -> exists a, a ∈ l /\ f a = Raise e.
Proof.
  induction l as [|a l IH]; cbn; [discriminate|].
  destruct (f a) as [b|e'] eqn:Hfa; cbn.
  - destruct (mapM f l) as [k'|e'']; cbn; [discriminate|].
    intros [= ->]. destruct IH as (a' & Hin & Ha'); [reflexivity|].
    exists a'. split; [by right | exact Ha'].
  - intros [= ->]. exists a. split; [by left | exact Hfa].
Qed.

Lemma mapM_result_ext {X A B} (f g : A -> result X B) (l : list A) :
  (forall a, f a = g a) -> mapM f l = mapM g l.
Proof. intros H. induction l as [|a l IH]; cbn; [reflexivity|]. rewrite H, IH. reflexivity. Qed.

Lemma mapM_result_fmap {X A B C} (f : A -> result X B) (g : B -> C) (l : list A) :
  mapM (fun a => g <$> f a) l = map g <$> mapM f l.
Proof.
  induction l as [|a l IH]; cbn; [reflexivity|].
  rewrite IH. destruct (f a); cbn; [|reflexivity]. destruct (mapM f l); reflexivity.
Qed.

(** [per_subject d f] succeeds exactly when every [subj[i]], [i] below
    [nbsubj], is there and [f] succeeds on it; entry [i] of the list then
    comes from [subj[i]]. *)
Lemma per_subject_Ok {A} (d : SubjDict) (f : Subj -> result (exn E) A) (l : list A) :
  per_subject d f = Ok l ->
  exists n, nbsubj d = Some n /\ length l = n /\
    forall i, i < n -> exists s x, items d !! i = Some s /\ f s = Ok x /\ l !! i = Some x.
Proof.
  unfold per_subject. destruct (nbsubj d) as [n|]; cbn; [|discriminate].
  intros H. apply mapM_result_Ok in H. exists n.
  pose proof (Forall2_length _ _ _ H) as Hlen. rewrite length_seq in Hlen.
  split; [reflexivity|]. split; [congruence|].
  intros i Hi.
  destruct (lookup_lt_is_Some_2 l i) as [x Hx]; [lia|].
  pose proof (Forall2_lookup_lr _ _ _ i i x H) as Hix.
  rewrite lookup_seq_lt in Hix by exact Hi. specialize (Hix eq_refl Hx). cbn in Hix.
  unfold subj_at in Hix. destruct (items d !! i) as [s|]; cbn in Hix; [|discriminate].
  exists s, x. done.
Qed.

Lemma per_subject_fmap {A B} (d : SubjDict) (f : Subj -> result (exn E) A) (g : A -> B) :
  per_subject d (fun s => g <$> f s) = map g <$> per_subject d f.
Proof.
  unfold per_subject. destruct (nbsubj d) as [n|]; cbn; [|reflexivity].
  rewrite <- mapM_result_fmap. apply mapM_result_ext. intros i.
  destruct (subj_at d i); reflexivity.
Qed.

(** ** The result table *)

Lemma df_columns_assign nm v (df : DataFrame) :
  df_columns (df_assign nm v df) =
  if bool_decide (nm ∈ df_columns df) then df_columns df else (df_columns df ++ [nm])%list.
Proof.
  induction df as [|[c w] df IH]; cbn; [reflexivity|].
  destruct (String.eqb c nm) eqn:Hc; cbn.
  - apply String.eqb_eq in Hc. subst c.
    rewrite bool_decide_eq_true_2 by (left). reflexivity.
  - apply String.eqb_neq in Hc. unfold df_columns in IH. rewrite IH.
    case_bool_decide as Hin.
    + rewrite bool_decide_eq_true_2 by (right; exact Hin). reflexivity.
    + rewrite bool_decide_eq_false_2; [reflexivity|].
      intros [Heq|Hin']%elem_of_cons; [congruence | contradiction].
Qed.

Lemma df_assign_Forall (P : string * list cell -> Prop) nm v (df : DataFrame) :
  P (nm, v) -> Forall P df -> Forall P (df_assign nm v df).
Proof.
  intros Hnew H. induction H as [|[c w] df Hc Hdf IH]; cbn.
  - repeat constructor. exact Hnew.
  - destruct (String.eqb c nm); constructor; try assumption.
Qed.

Lemma slope_columns_spec (d : SubjDict) (s0 : Subj) (slope_type suffix : string)
    (chs : list nat) : forall (df df' : DataFrame),
  items d !! 0 = Some s0 ->
  slope_columns d slope_type suffix chs df = Ok df' ->
  exists names,
    Forall2 (fun ch nm => chans s0 !! ch = Some nm) chs names /\
    (Forall (per_subject_column d) df -> Forall (per_subject_column d) df') /\
    (NoDup (df_columns df ++ map (fun c => c +:+ suffix) names) ->
     df_columns df' = (df_columns df ++ map (fun c => c +:+ suffix) names)%list).
Proof.
  intros df df' H0. revert df df'.
  induction chs as [|ch chs IH]; intros df df'; cbn.
  - intros [= <-]. exists []. cbn. rewrite app_nil_r. split_and!; [constructor | done | done].
  - destruct (get_subject_slopes d ch slope_type) as [col|e] eqn:Hcol; cbn; [|discriminate].
    unfold subj_at. rewrite H0. cbn.
    destruct (chans s0 !! ch) as [nm|] eqn:Hnm; cbn; [|discriminate].
    unfold df_set. destruct (length (map CNum col) =? df_nrows df)%nat; cbn; [|discriminate].
    intros Hrest. destruct (IH _ _ Hrest) as (names & Hnames & HP & Hcols).
    exists (nm :: names). split_and!.
    + constructor; assumption.
    + intros Hdf. apply HP, df_assign_Forall; [|exact Hdf].
      exists (FSlope ch slope_type).
      change (per_subject d (fun s => CNum <$> slope_of s ch (slope_type +:+ "_slope")) =
              Ok (map CNum col)).
      rewrite (per_subject_fmap d (fun s => slope_of s ch (slope_type +:+ "_slope")) CNum).
      unfold get_subject_slopes in Hcol. rewrite Hcol. reflexivity.
    + cbn. intros Hnd. rewrite df_columns_assign in Hcols.
      rewrite bool_decide_eq_false_2 in Hcols.
      * rewrite cons_middle, app_assoc in Hnd |- *. apply Hcols, Hnd.
      * apply NoDup_app in Hnd. destruct Hnd as (_ & Hdisj & _).
        intros Hin. apply (Hdisj _ Hin). left.
Qed.

Lemma lookups_of_seq {A} (l names : list A) (n : nat) :
  Forall2 (fun ch nm => l !! ch = Some nm) (seq 0 n) names -> names = take n l.
Proof.
  intros H. apply list_eq. intros i.
  pose proof (Forall2_length _ _ _ H) as Hlen. rewrite length_seq in Hlen.
  destruct (decide (i < n)) as [Hi|Hi].
  - destruct (lookup_lt_is_Some_2 names i) as [x Hx]; [lia|].
    pose proof (Forall2_lookup_lr _ _ _ i i x H) as Hix.
    rewrite lookup_seq_lt in Hix by exact Hi. specialize (Hix eq_refl Hx). cbn in Hix.
    rewrite lookup_take_lt by exact Hi. congruence.
  - rewrite lookup_ge_None_2 by lia. rewrite lookup_take_ge by lia. reflexivity.
Qed.

(** The table of lines 237-248, when it is built: every column is a list
    comprehension over the subjects, and when the names are distinct they
    are the five names of line 244 followed by the channels with eyes
    closed and then with eyes open. *)
Lemma build_table_spec (d : SubjDict) (df : DataFrame) :
  build_table d = Ok df ->
  exists s0, items d !! 0 = Some s0 /\
    Forall (per_subject_column d) df /\
    (NoDup (expected_columns s0) -> df_columns df = expected_columns s0).
Proof.
  intros Ho. unfold build_table in Ho.
  destruct (per_subject d (fun s => Ok (CStr (name s)))) as [c1|] eqn:H1; cbn in Ho; [|discriminate].
  destruct (per_subject d (fun s => Ok (CStr (group s)))) as [c2|] eqn:H2; cbn in Ho; [|discriminate].
  destruct (per_subject d (fun s => Ok (CInt (age s)))) as [c3|] eqn:H3; cbn in Ho; [|discriminate].
  destruct (per_subject d (fun s => Ok (CInt (nwins_eyesc s)))) as [c4|] eqn:H4; cbn in Ho; [|discriminate].
  destruct (per_subject d (fun s => Ok (CInt (nwins_eyeso s)))) as [c5|] eqn:H5; cbn in Ho; [|discriminate].
  unfold subj_at in Ho. destruct (items d !! 0) as [s0|] eqn:H0; cbn in Ho; [|discriminate].
  destruct (slope_columns d "eyesc" "_EYESC" _ _) as [dfc|] eqn:Hc; cbn in Ho; [|discriminate].
  destruct (slope_columns_spec _ _ _ _ _ _ _ H0 Hc) as (nc & Hnc & HPc & Hcc).
  destruct (slope_columns_spec _ _ _ _ _ _ _ H0 Ho) as (no & Hno & HPo & Hco).
  apply lookups_of_seq in Hnc, Hno. subst nc no.
  exists s0. split; [reflexivity|]. split.
  - apply HPo, HPc. repeat constructor.
    + exists FSubject. exact H1.
    + exists FClass. exact H2.
    + exists FAge. exact H3.
    + exists FNwindowsEyesc. exact H4.
    + exists FNwindowsEyeso. exact H5.
  - unfold expected_columns, channel_list. intros Hnd.
    assert (Hc' : df_columns dfc =
                  (meta_columns ++ map (fun c => c +:+ "_EYESC") (take (nbchan s0) (chans s0)))%list).
    { apply Hcc. rewrite app_assoc in Hnd. apply NoDup_app in Hnd.
      destruct Hnd as (Hnd & _ & _). exact Hnd. }
    rewrite Hc' in Hco. rewrite <- app_assoc in Hco. apply Hco, Hnd.
Qed.

(** ** The pipeline as a whole *)

Lemma raises_only_bind {A B} (P : exn E -> Prop) (m : result (exn E) A)
    (f : A -> result (exn E) B) :
  raises_only P m -> (forall x, raises_only P (f x)) -> raises_only P (m ≫= f).
Proof.
  intros Hm Hf e. destruct m as [x|e']; cbn; [apply Hf|].
  intros [= ->]. by apply Hm.
Qed.

Lemma raises_only_or_raise {A} (P : exn E -> Prop) (e : exn E) (o : option A) :
  P e -> raises_only P (or_raise e o).
Proof. intros He e'. destruct o; cbn; [discriminate|]. by intros [= <-]. Qed.

Lemma raises_only_Ok {A} (P : exn E -> Prop) (x : A) : raises_only P (Ok x).
Proof. intros e. discriminate. Qed.

Lemma raises_only_mapM {A B} (P : exn E -> Prop) (f : A -> result (exn E) B) (l : list A) :
  (forall x, raises_only P (f x)) -> raises_only P (mapM f l).
Proof.
  intros Hf e H. apply mapM_result_Raise in H. destruct H as (x & _ & Hx).
  exact (Hf x e Hx).
Qed.

Lemma raises_only_per_subject {A} (P : exn E -> Prop) (d : SubjDict)
    (f : Subj -> result (exn E) A) :
  P KeyError -> (forall s, raises_only P (f s)) -> raises_only P (per_subject d f).
Proof.
  intros HK Hf. unfold per_subject.
  apply raises_only_bind; [by apply raises_only_or_raise|].
  intros n. apply raises_only_mapM. intros i.
  apply raises_only_bind; [by apply raises_only_or_raise | intros s; apply Hf].
Qed.

Lemma lookup_error_Key : lookup_error (KeyError : exn E).
Proof. by left. Qed.

Lemma lookup_error_Index : lookup_error (IndexError : exn E).
Proof. by right; left. Qed.

Lemma lookup_error_Value : lookup_error (ValueError : exn E).
Proof. by right; right. Qed.

Lemma raises_only_slope_columns d ty suffix chs (df : DataFrame) :
  raises_only lookup_error (slope_columns d ty suffix chs df).
Proof.
  revert df. induction chs as [|ch chs IH]; intros df; cbn [slope_columns].
  - apply raises_only_Ok.
  - apply raises_only_bind.
    { apply raises_only_per_subject; [apply lookup_error_Key|]. intros s. unfold slope_of.
      apply raises_only_bind;
        [apply raises_only_or_raise, lookup_error_Index | intros ?].
      apply raises_only_bind;
        [apply raises_only_or_raise, lookup_error_Key | intros ?].
      apply raises_only_or_raise, lookup_error_Index. }
    intros col.
    apply raises_only_bind; [apply raises_only_or_raise, lookup_error_Key | intros ?].
    apply raises_only_bind; [apply raises_only_or_raise, lookup_error_Index | intros ?].
    apply raises_only_bind; [|intros ?; apply IH].
    unfold df_set. case_match; [apply raises_only_Ok|].
    intros e [= <-]. apply lookup_error_Value.
Qed.

(** [build_table] raises nothing but the exceptions of failed subscripts. *)
Lemma raises_only_build_table d : raises_only lookup_error (build_table d).
Proof.
  unfold build_table.
  repeat (apply raises_only_bind;
          [apply raises_only_per_subject;
           [apply lookup_error_Key | intros ?; apply raises_only_Ok]
          | intros ?]).
  apply raises_only_bind; [apply raises_only_or_raise, lookup_error_Key | intros ?].
  apply raises_only_bind; [apply raises_only_slope_columns | intros ?].
  apply raises_only_bind; [apply raises_only_or_raise, lookup_error_Key | intros ?].
  apply raises_only_slope_columns.
Qed.


(** The run after the configuration, by cases on the metadata check. *)
Lemma pipeline_run (w : World) st0 (fl : list string) :
  get_filelist (w_fs w) (import_dir_mat (params st0)) "mat" = Some fl ->
  let df := w_csv w (import_path_csv (params st0)) in
  run (pipeline str_num w (params st0)) st0 =
  if bool_decide (size (missing_subjects fl df) ≠ 0) then
    Raised MissingSubjectInformation
      (mkRunState (params st0) (subj st0)
         ((trace st0 ++ params_log str_num (params st0)) ++
          map (fun m => EPrint (missing_line m)) (elements (missing_subjects fl df))))
  else
    match run (loop_from df 0 fl) (loop_start str_num st0 fl) with
    | Done st2 => run [a_save_npy str_num; a_export str_num] st2
    | Raised e st2 => Raised e st2
    end.
Proof.
  intros Hfl df. unfold pipeline. rewrite Hfl. cbn [default from_option].
  cbn [app run]. rewrite a_write_params_done.
  unfold a_check_missing. fold df.
  case_bool_decide as Hm.
  - rewrite (foldl_emit (fun m => EPrint (missing_line m))). reflexivity.
  - cbn [a_init_subj with_subj params subj trace]. rewrite run_app. reflexivity.
Qed.

Lemma main_after_config (defaults : Params) (w : World) st0 :
  run (config_actions w : list action) (initial_state defaults) = Done st0 ->
  main str_num defaults w = run (pipeline str_num w (params st0)) st0.
Proof. intros H. unfold main. rewrite H. reflexivity. Qed.

(** ** The metadata check *)

Lemma elem_of_missing_subjects (fl : list string) (df : list Row) (s : string) :
  s ∈ missing_subjects fl df <->
  (exists f, f ∈ fl /\ subject_name f = s) /\ (forall r, r ∈ df -> SUBJECT r <> s).
Proof.
  unfold missing_subjects, subjects_of.
  rewrite elem_of_difference, !elem_of_list_to_set, !list_elem_of_fmap.
  split.
  - intros [(f & -> & Hf) Hno]. split; [eauto|].
    intros r Hr Heq. apply Hno. exists r. auto.
  - intros [(f & Hf & <-) Hno]. split; [eauto|].
    intros (r & Heq & Hr). exact (Hno r Hr (eq_sym Heq)).
Qed.

Lemma missing_lines_quiet (errs : list string) :
  Forall (fun e => subject_event e = false /\ result_output e = false)
         (map (fun m => EPrint (missing_line m)) errs).
Proof. apply Forall_map, Forall_forall. intros m _. split; reflexivity. Qed.


(** ** The end of the run (lines 228-255) *)

Lemma calls_on_quiet i (l : list Event) :
  Forall (fun e => subject_event e = false /\ result_output e = false) l ->
  calls_on i l = [].
Proof.
  induction 1 as [|e l [He _] _ IH]; [reflexivity|].
  destruct e; cbn in *; try discriminate; exact IH.
Qed.

Lemma save_and_export_spec st2 :
  let o := run [a_save_npy str_num; a_export str_num] st2 in
  params (final_state o) = params st2
  /\ nbsubj (subj (final_state o)) = nbsubj (subj st2)
  /\ items (subj (final_state o)) = items (subj st2)
  /\ (exists evs, trace (final_state o) = (trace st2 ++ evs)%list /\
                  forall i, calls_on i evs = [])
  /\ match o with
     | Done st =>
         exists npy text csv tbl,
           build_table (subj st) = Ok tbl /\
           trace st = (trace st2 ++ [ENpSave npy; EPrint text; EToCsv csv tbl])%list
     | Raised e _ => lookup_error e
     end.
Proof.
  cbn [run]. unfold a_save_npy.
  destruct (p_Time (params st2)) as [t|].
  2:{ cbn. split_and!; try done; [|apply lookup_error_Key].
      exists []. rewrite app_nil_r. done. }
  unfold a_export. cbn [subj with_subj emit].
  destruct (build_table _) as [tbl|e] eqn:Hbt; cbn.
  - split_and!; try done.
    + eexists. rewrite <- !app_assoc. split; [reflexivity|]. done.
    + eexists _, _, _, tbl. split; [exact Hbt|]. rewrite <- !app_assoc. reflexivity.
  - split_and!; try done.
    + eexists. split; [reflexivity|]. done.
    + exact (raises_only_build_table _ _ Hbt).
Qed.

(** ** Runs that reach the loop *)

Lemma rows_of_found (fl : list string) (df : list Row) (f : string) :
  missing_subjects fl df = ∅ -> f ∈ fl -> rows_of df (subject_name f) <> [].
Proof.
  intros Hm Hf Hrows.
  assert (Hnot : subject_name f ∉ missing_subjects fl df) by (rewrite Hm; set_solver).
  apply Hnot, elem_of_missing_subjects. split; [eauto|].
  intros r Hr Heq.
  assert (Hin : r ∈ rows_of df (subject_name f)).
  { unfold rows_of. apply list_elem_of_filter. split; [|exact Hr].
    apply Is_true_true, String.eqb_eq, Heq. }
  rewrite Hrows in Hin. by apply elem_of_nil in Hin.
Qed.

(** The calls a run makes on each subject, whatever its outcome: those of
    [expected_calls] for the file at that index, in order, up to the point
    where the run ended. *)
Lemma main_calls (defaults : Params) (w : World) st0 (fl : list string) (i : nat) :
  run (config_actions w : list action) (initial_state defaults) = Done st0 ->
  get_filelist (w_fs w) (import_dir_mat (params st0)) "mat" = Some fl ->
  let df := w_csv w (import_path_csv (params st0)) in
  let o := main str_num defaults w in
  calls_on i (trace (final_state o)) `prefix_of`
    from_option (expected_calls (params st0) df) [] (fl !! i)
  /\ (forall st, o = Done st ->
        calls_on i (trace st) = from_option (expected_calls (params st0) df) [] (fl !! i)).
Proof.
  intros Hcfg Hfl df.
  pose proof (config_done _ _ _ Hcfg) as (Htr0 & Hsubj0 & Htime0).
  rewrite (main_after_config _ _ _ Hcfg), (pipeline_run w st0 fl Hfl). fold df.
  assert (Hq : calls_on i (trace st0 ++ params_log str_num (params st0)) = []).
  { apply calls_on_quiet, Forall_app. rewrite Htr0.
    split; [repeat constructor | apply params_log_quiet]. }
  case_bool_decide as Hm; cbn zeta.
  { cbn [final_state trace]. rewrite calls_on_app, Hq.
    rewrite (calls_on_quiet i _ (missing_lines_quiet _)). split; [apply prefix_nil | discriminate]. }
  destruct (loop_from_spec df fl 0 (loop_start str_num st0 fl)) as (evs & Hloop).
  cbn zeta in Hloop. destruct Hloop as (Htr & Hp & _ & _ & _ & _ & Hpre & _ & Hres).
  specialize (Hpre i). cbn [Nat.add] in Hpre.
  destruct (run (loop_from df 0 fl) (loop_start str_num st0 fl)) as [st2|e st2];
    cbn [final_state] in *.
  - destruct (save_and_export_spec st2) as (_ & _ & _ & (evs3 & Htr3 & Hc3) & _).
    cbn zeta in Htr3. rewrite Htr3, calls_on_app, Hc3, app_nil_r, Htr.
    cbn [loop_start trace]. rewrite calls_on_app, Hq. cbn [app].
    split; [exact Hpre|]. intros st Hst.
    apply (f_equal final_state) in Hst. cbn [final_state] in Hst.
    rewrite <- Hst, Htr3, calls_on_app, Hc3, app_nil_r, Htr.
    cbn [loop_start trace]. rewrite calls_on_app, Hq. cbn [app].
    destruct (fl !! i) as [f|] eqn:Hf; cbn [from_option] in *.
    + exact (proj1 (Hres i f Hf)).
    + by apply prefix_nil_inv in Hpre.
  - rewrite Htr. cbn [loop_start trace]. rewrite calls_on_app, Hq. cbn [app].
    split; [exact Hpre | discriminate].
Qed.

(** ** Runs that complete *)

(** A run that completes has discovered its recordings, holds in [subj[i]]
    the object made from the file at index [i], has built the table from
    these objects, and has written it last. *)
Lemma main_done (defaults : Params) (w : World) st :
  main str_num defaults w = Done st ->
  exists (fl : list string) tbl tr csv,
    get_filelist (w_fs w) (import_dir_mat (params st)) "mat" = Some fl
    /\ nbsubj (subj st) = Some (length fl)
    /\ (forall j f, fl !! j = Some f ->
          exists s, processed (params st) (w_csv w (import_path_csv (params st))) f = Ok s /\
                    items (subj st) !! j = Some s)
    /\ build_table (subj st) = Ok tbl
    /\ trace st = (tr ++ [EToCsv csv tbl])%list.
Proof.
  unfold main.
  destruct (run (config_actions w) (initial_state defaults)) as [st0|] eqn:Hcfg; [|discriminate].
  destruct (get_filelist (w_fs w) (import_dir_mat (params st0)) "mat") as [fl|] eqn:Hfl.
  2:{ unfold pipeline. rewrite Hfl. cbn [default from_option app run].
      rewrite a_write_params_done. cbn. discriminate. }
  rewrite (pipeline_run w st0 fl Hfl).
  case_bool_decide as Hm; [discriminate|].
  destruct (loop_from_spec (w_csv w (import_path_csv (params st0))) fl 0 (loop_start str_num st0 fl))
    as (evs & Hloop).
  cbn zeta in Hloop. destruct Hloop as (_ & Hp & Hn & _ & _ & _ & _ & _ & Hres).
  destruct (run (loop_from _ 0 fl) (loop_start str_num st0 fl)) as [st2|e st2]; [|discriminate].
  cbn [final_state loop_start params subj nbsubj] in *.
  destruct (save_and_export_spec st2) as (Hp3 & Hn3 & Hi3 & _ & Hend). cbn zeta in *.
  intros Hrun. rewrite Hrun in *. cbn [final_state] in *.
  destruct Hend as (npy & text & csv & tbl & Hbt & Htr).
  exists fl, tbl, (trace st2 ++ [ENpSave npy; EPrint text])%list, csv.
  rewrite Hp3, Hp, Hn3, Hn, Hi3. split_and!; try done.
  - intros j f Hf. destruct (Hres j f Hf) as (_ & s & Hs & Hit). eauto.
  - rewrite Htr, <- app_assoc. reflexivity.
Qed.

(** ** No validation of the configuration *)

Lemma elem_of_calls_on i c (tr : list Event) : ECall i c ∈ tr <-> c ∈ calls_on i tr.
Proof.
  unfold calls_on. rewrite list_elem_of_omap. split.
  - intros H. exists (ECall i c). split; [exact H|]. cbn. rewrite Nat.eqb_refl. reflexivity.
  - intros (e & He & Hc). destruct e as [| | |j c'| |]; try discriminate.
    cbn in Hc. destruct (j =? i)%nat eqn:Hj; [|discriminate].
    apply Nat.eqb_eq in Hj. by simplify_eq.
Qed.

(** C4, as the code has it: [main] has no check of the configuration.
    Whatever the frequencies and the selectors are, once the parameters are
    established, a first recording [f] is discovered and every recording has
    metadata, the run logs the parameters and goes on to announce and
    construct the first subject.  Every call it then makes is one of
    [expected_calls]: the fitting-function selector and the four frequencies
    go to [fit_slopes] as they stand in [params], and the trial-length
    modification is called only under the test of line 210, so any other
    trial-policy selector means no modification. *)
Theorem configuration_is_not_validated (defaults : Params) (w : World) st0
    (f : string) (fl : list string) :
  run (config_actions w : list action) (initial_state defaults) = Done st0 ->
  get_filelist (w_fs w) (import_dir_mat (params st0)) "mat" = Some (f :: fl) ->
  let df := w_csv w (import_path_csv (params st0)) in
  missing_subjects (f :: fl) df = ∅ ->
  let tr := trace (final_state (main str_num defaults w)) in
  (exists r rs rest,
     rows_of df (subject_name f) = r :: rs /\
     tr = ([EMkdir (export_dir (params st0))] ++ params_log str_num (params st0) ++
           [EPrint ("Processing: " +:+ subject_name f);
            ECall 0 (CNew f (import_dir_evt (params st0) +:+ subject_name f +:+ ".evt")
                          (CLASS r) (AGE r) (SEX r))] ++ rest)%list)
  /\ (forall i c, ECall i c ∈ tr ->
        exists f', (f :: fl) !! i = Some f' /\ c ∈ expected_calls (params st0) df f').
Proof.
  intros Hcfg Hfl df Hm tr. split.
  - pose proof (config_done _ _ _ Hcfg) as (Htr0 & _ & _).
    subst tr. rewrite (main_after_config _ _ _ Hcfg), (pipeline_run w st0 _ Hfl). fold df.
    rewrite bool_decide_eq_false_2 by (rewrite Hm, size_empty; auto).
    destruct (rows_of df (subject_name f)) as [|r rs] eqn:Hrows.
    { exfalso. apply (rows_of_found (f :: fl) df f Hm); [left | exact Hrows]. }
    destruct (loop_from_spec df (f :: fl) 0 (loop_start str_num st0 (f :: fl))) as (evs & Hloop).
    cbn zeta in Hloop. destruct Hloop as (Htr & _ & _ & _ & _ & _ & _ & Hfirst & _).
    destruct (Hfirst f fl eq_refl) as (evs' & -> & Hnew).
    destruct (Hnew r rs Hrows) as (evs'' & ->).
    exists r, rs.
    destruct (run (loop_from df 0 (f :: fl)) (loop_start str_num st0 (f :: fl))) as [st2|e st2];
      cbn [final_state] in *.
    + destruct (save_and_export_spec st2) as (_ & _ & _ & (evs3 & Htr3 & _) & _).
      cbn zeta in Htr3. exists (evs'' ++ evs3)%list. split; [reflexivity|].
      rewrite Htr3, Htr. cbn [loop_start trace params]. rewrite Htr0, <- !app_assoc.
      reflexivity.
    + exists evs''. split; [reflexivity|].
      rewrite Htr. cbn [loop_start trace params]. rewrite Htr0, <- !app_assoc. reflexivity.
  - intros i c Hin. apply elem_of_calls_on in Hin.
    destruct (main_calls defaults w st0 (f :: fl) i Hcfg Hfl) as [Hpre _]. cbn zeta in Hpre.
    fold df in Hpre. fold tr in Hpre.
    destruct ((f :: fl) !! i) as [f'|]; cbn [from_option] in Hpre.
    + exists f'. split; [reflexivity|]. destruct Hpre as [k ->]. apply elem_of_app. by left.
    + apply prefix_nil_inv in Hpre. rewrite Hpre in Hin. by apply elem_of_nil in Hin.
Qed.

(** ** The trial-length modification *)

Lemma modifies_spec (p : Params) (g : string) :
  modifies p g = true <-> trial_protocol p = "match_OA" /\ g = "DANE".
Proof. unfold modifies. rewrite andb_true_iff, !String.eqb_eq. reflexivity. Qed.

Lemma in_main_Ok {A} (r : result E A) (a : A) : in_main r = Ok a -> r = Ok a.
Proof. destruct r; cbn; [congruence | discriminate]. Qed.

(** One pass of the loop that succeeds, call by call. *)
Lemma processed_Ok (p : Params) (df : list Row) (f : string) (s : Subj) :
  processed p df f = Ok s ->
  exists r rs s1 s2 s3,
    rows_of df (subject_name f) = r :: rs
    /\ Subject f (import_dir_evt p +:+ subject_name f +:+ ".evt") (CLASS r) (AGE r) (SEX r) = Ok s1
    /\ (trial_protocol p = "match_OA" /\ CLASS r = "DANE" -> modify_trial_length 0 30 s1 = Ok s2)
    /\ (~ (trial_protocol p = "match_OA" /\ CLASS r = "DANE") -> s2 = s1)
    /\ compute_ch_psds (nwins_upperlimit p) s2 = Ok s3
    /\ fit_slopes (fitting_func p) (psd_buffer_lofreq p) (psd_buffer_hifreq p)
                  (fitting_lofreq p) (fitting_hifreq p) s3 = Ok s.
Proof.
  unfold processed. destruct (rows_of df (subject_name f)) as [|r rs]; [discriminate|].
  intros Hs. exists r, rs.
  destruct (in_main (Subject _ _ _ _ _)) as [s1|] eqn:H1; cbn in Hs; [|discriminate].
  apply in_main_Ok in H1.
  pose proof (modifies_spec p (CLASS r)) as Hmod.
  destruct (modifies p (CLASS r)).
  - destruct (in_main (modify_trial_length 0 30 s1)) as [s2|] eqn:H2; cbn in Hs; [|discriminate].
    apply in_main_Ok in H2.
    destruct (in_main (compute_ch_psds _ s2)) as [s3|] eqn:H3; cbn in Hs; [|discriminate].
    apply in_main_Ok in H3, Hs. exists s1, s2, s3. split_and!; try done.
    intros Hnt. destruct Hnt. by apply Hmod.
  - cbn in Hs.
    destruct (in_main (compute_ch_psds _ s1)) as [s3|] eqn:H3; cbn in Hs; [|discriminate].
    apply in_main_Ok in H3, Hs. exists s1, s1, s3. split_and!; try done.
    intros Ht. apply Hmod in Ht. discriminate.
Qed.

(** The object a completed run holds for the file at index [i]: what the
    constructor returned, passed through [modify_trial_length(0, 30)] under
    the test of line 210 and untouched otherwise, then through
    [compute_ch_psds] and [fit_slopes]. *)
Lemma main_done_subject (defaults : Params) (w : World) st0 st (fl : list string)
    (i : nat) (f : string) (r : Row) (rs : list Row) :
  run (config_actions w : list action) (initial_state defaults) = Done st0 ->
  get_filelist (w_fs w) (import_dir_mat (params st0)) "mat" = Some fl ->
  fl !! i = Some f ->
  rows_of (w_csv w (import_path_csv (params st0))) (subject_name f) = r :: rs ->
  main str_num defaults w = Done st ->
  let p := params st0 in
  exists s1 s2 s3 s4,
    Subject f (import_dir_evt p +:+ subject_name f +:+ ".evt") (CLASS r) (AGE r) (SEX r) = Ok s1
    /\ (if modifies p (CLASS r) then modify_trial_length 0 30 s1 = Ok s2 else s2 = s1)
    /\ compute_ch_psds (nwins_upperlimit p) s2 = Ok s3
    /\ fit_slopes (fitting_func p) (psd_buffer_lofreq p) (psd_buffer_hifreq p)
                  (fitting_lofreq p) (fitting_hifreq p) s3 = Ok s4
    /\ items (subj st) !! i = Some s4.
Proof.
  intros Hcfg Hfl Hf Hrows Hrun p.
  assert (Hp : params st = params st0).
  { pose proof (run_keeps_params (pipeline str_num w (params st0)) st0
                  (keeps_params_pipeline w (params st0))) as Hk.
    rewrite <- (main_after_config _ _ _ Hcfg), Hrun in Hk. exact Hk. }
  destruct (main_done defaults w st Hrun) as (fl' & _ & _ & _ & Hfl' & _ & Hsub & _).
  rewrite Hp in Hfl', Hsub. assert (fl' = fl) as -> by congruence.
  destruct (Hsub i f Hf) as (s & Hs & Hit).
  unfold processed in Hs. rewrite Hrows in Hs. fold p in Hs.
  destruct (in_main (Subject _ _ _ _ _)) as [s1|] eqn:H1; cbn in Hs; [|discriminate].
  apply in_main_Ok in H1.
  destruct (modifies p (CLASS r)).
  - destruct (in_main (modify_trial_length 0 30 s1)) as [s2|] eqn:H2; cbn in Hs; [|discriminate].
    apply in_main_Ok in H2.
    destruct (in_main (compute_ch_psds _ s2)) as [s3|] eqn:H3; cbn in Hs; [|discriminate].
    apply in_main_Ok in H3, Hs. exists s1, s2, s3, s. done.
  - cbn in Hs.
    destruct (in_main (compute_ch_psds _ s1)) as [s3|] eqn:H3; cbn in Hs; [|discriminate].
    apply in_main_Ok in H3, Hs. exists s1, s1, s3, s. done.
Qed.

(** C6: for the subject at index [i] of the discovered recordings, with
    metadata row [r], the calls the run makes on [subj[i]] are, in order:
    the constructor; then [modify_trial_length(0, 30)], once, if and only if
    the trial policy is ['match_OA'] and the group of the subject is
    ['DANE']; then [compute_ch_psds] (windowing and PSDs); then
    [fit_slopes].  A run that ends early has made a prefix of these calls; a
    run that completes has made exactly these, and the object it holds in
    [subj[i]] is the one the constructor returned, passed through
    [modify_trial_length(0, 30)] if the policy and the group are those
    (it is what that method left) and passed on as it was otherwise, then
    through [compute_ch_psds] and through [fit_slopes]. *)
Theorem trial_length_modified_once_for_target_group (defaults : Params) (w : World)
    st0 (fl : list string) (i : nat) (f : string) (r : Row) (rs : list Row) :
  run (config_actions w : list action) (initial_state defaults) = Done st0 ->
  get_filelist (w_fs w) (import_dir_mat (params st0)) "mat" = Some fl ->
  fl !! i = Some f ->
  rows_of (w_csv w (import_path_csv (params st0))) (subject_name f) = r :: rs ->
  let p := params st0 in
  let target := trial_protocol p = "match_OA" /\ CLASS r = "DANE" in
  let calls :=
    (CNew f (import_dir_evt p +:+ subject_name f +:+ ".evt") (CLASS r) (AGE r) (SEX r) ::
     (if decide target then [CModify 0 30] else []) ++
     [CCompute (nwins_upperlimit p);
      CFit (fitting_func p) (psd_buffer_lofreq p) (psd_buffer_hifreq p)
           (fitting_lofreq p) (fitting_hifreq p)])%list in
  calls_on i (trace (final_state (main str_num defaults w))) `prefix_of` calls
  /\ (forall st, main str_num defaults w = Done st ->
        calls_on i (trace st) = calls
        /\ exists s1 s2 s3 s4,
             Subject f (import_dir_evt p +:+ subject_name f +:+ ".evt")
                     (CLASS r) (AGE r) (SEX r) = Ok s1
             /\ (target -> modify_trial_length 0 30 s1 = Ok s2)
             /\ (~ target -> s2 = s1)
             /\ compute_ch_psds (nwins_upperlimit p) s2 = Ok s3
             /\ fit_slopes (fitting_func p) (psd_buffer_lofreq p) (psd_buffer_hifreq p)
                           (fitting_lofreq p) (fitting_hifreq p) s3 = Ok s4
             /\ items (subj st) !! i = Some s4).
Proof.
  intros Hcfg Hfl Hf Hrows p target calls.
  destruct (main_calls defaults w st0 fl i Hcfg Hfl) as [Hpre Hdone]. cbn zeta in *.
  rewrite Hf in Hpre, Hdone. cbn [from_option] in *.
  assert (Hmod : modifies p (CLASS r) = true <-> target) by apply modifies_spec.
  assert (Hexp : expected_calls (params st0) (w_csv w (import_path_csv (params st0))) f = calls).
  { unfold expected_calls, calls. rewrite Hrows. fold p.
    destruct (modifies p (CLASS r)) eqn:Hm; case_decide as Hd; try reflexivity.
    - destruct Hd. by apply Hmod.
    - apply Hmod in Hd. discriminate. }
  rewrite Hexp in *. split; [exact Hpre|].
  intros st Hrun. split; [by apply Hdone|].
  destruct (main_done_subject defaults w st0 st fl i f r rs Hcfg Hfl Hf Hrows Hrun)
    as (s1 & s2 & s3 & s4 & H1 & H2 & H3 & H4 & Hit).
  fold p in H1, H2, H3, H4.
  exists s1, s2, s3, s4. split_and!; try done.
  - intros Ht. apply Hmod in Ht. rewrite Ht in H2. exact H2.
  - intros Hnt. destruct (modifies p (CLASS r)) eqn:Hm; [|exact H2].
    destruct Hnt. by apply Hmod.
Qed.

(** ** The exported table *)

(** C7, as the code has it: the table a completed run exports has one row
    per discovered recording and, when the column names are distinct, the
    columns SUBJECT, CLASS, AGE, NWINDOWS_EYESC and NWINDOWS_EYESO, then one
    column per channel of [subj[0]] for eyes closed, in channel-list order,
    then one per channel for eyes open, in the same order. *)
Theorem result_table_columns (defaults : Params) (w : World) st (s0 : Subj) :
  main str_num defaults w = Done st ->
  items (subj st) !! 0 = Some s0 ->
  NoDup (expected_columns s0) ->
  exists (fl : list string) tbl tr csv,
    get_filelist (w_fs w) (import_dir_mat (params st)) "mat" = Some fl
    /\ trace st = (tr ++ [EToCsv csv tbl])%list
    /\ df_columns tbl =
       (["SUBJECT"; "CLASS"; "AGE"; "NWINDOWS_EYESC"; "NWINDOWS_EYESO"] ++
        map (fun c => c +:+ "_EYESC") (take (nbchan s0) (chans s0)) ++
        map (fun c => c +:+ "_EYESO") (take (nbchan s0) (chans s0)))%list
    /\ Forall (fun c => length (snd c) = length fl) tbl.
Proof.
  intros Hrun H0 Hnd.
  destruct (main_done defaults w st Hrun) as (fl & tbl & tr & csv & Hfl & Hn & _ & Hbt & Htr).
  exists fl, tbl, tr, csv.
  destruct (build_table_spec _ _ Hbt) as (s0' & H0' & HP & Hcols).
  assert (s0' = s0) as -> by congruence.
  split_and!; [exact Hfl | exact Htr | exact (Hcols Hnd) |].
  eapply Forall_impl; [exact HP|]. intros c (x & Hx).
  apply per_subject_Ok in Hx. destruct Hx as (n & Hn' & Hlen & _). congruence.
Qed.

(** [subj[i].psds[ch][key][0]] is there exactly when the three subscripts
    succeed. *)
Lemma slope_of_Ok (s : Subj) (ch : nat) (key : string) (q : Q) :
  slope_of s ch key = (Ok q : result (exn E) Q) <->
  exists p r, psds s !! ch = Some p /\ p !! key = Some r /\ r !! 0 = Some q.
Proof.
  unfold slope_of. split.
  - destruct (psds s !! ch) as [p|] eqn:Hp; cbn; [|discriminate].
    destruct (p !! key) as [r|] eqn:Hr; cbn; [|discriminate].
    destruct (r !! 0) as [q'|] eqn:Hq; cbn; [|discriminate].
    intros [= <-]. exists p, r. done.
  - intros (p & r & -> & Hr & Hq). cbn. rewrite Hr. cbn. rewrite Hq. reflexivity.
Qed.

Lemma df_assign_fresh nm v (df : DataFrame) :
  nm ∉ df_columns df -> df_assign nm v df = (df ++ [(nm, v)])%list.
Proof.
  induction df as [|[c w] df IH]; cbn; [reflexivity|].
  intros Hnot. destruct (String.eqb c nm) eqn:Hc.
  - apply String.eqb_eq in Hc. subst c. exfalso. apply Hnot. left.
  - rewrite IH; [reflexivity|]. intros Hin. apply Hnot. by right.
Qed.

(** The columns one of the loops of lines 245-248 adds, when no name is
    assigned twice. *)
Lemma slope_columns_table (d : SubjDict) (s0 : Subj) (slope_type suffix : string)
    (chs : list nat) : forall (df df' : DataFrame),
  items d !! 0 = Some s0 ->
  slope_columns d slope_type suffix chs df = Ok df' ->
  exists cols,
    Forall2 (fun ch col => exists nm l,
               chans s0 !! ch = Some nm /\
               get_subject_slopes d ch slope_type = Ok l /\
               col = (nm +:+ suffix, map CNum l)) chs cols /\
    (NoDup (df_columns df ++ map fst cols) -> df' = (df ++ cols)%list).
Proof.
  intros df df' H0. revert df df'.
  induction chs as [|ch chs IH]; intros df df'; cbn.
  - intros [= <-]. exists []. split; [constructor|]. intros _. by rewrite app_nil_r.
  - destruct (get_subject_slopes d ch slope_type) as [l|e] eqn:Hcol; cbn; [|discriminate].
    unfold subj_at. rewrite H0. cbn.
    destruct (chans s0 !! ch) as [nm|] eqn:Hnm; cbn; [|discriminate].
    unfold df_set. destruct (length (map CNum l) =? df_nrows df)%nat; cbn; [|discriminate].
    intros Hrest. destruct (IH _ _ Hrest) as (cols & Hcols & Htbl).
    exists ((nm +:+ suffix, map CNum l) :: cols). split.
    + constructor; [|exact Hcols]. exists nm, l. done.
    + cbn [map fst]. intros Hnd.
      assert (Hfresh : nm +:+ suffix ∉ df_columns df).
      { apply NoDup_app in Hnd. destruct Hnd as (_ & Hdisj & _).
        intros Hin. apply (Hdisj _ Hin). left. }
      rewrite (df_assign_fresh _ _ _ Hfresh) in Htbl.
      rewrite Htbl.
      * rewrite <- app_assoc. reflexivity.
      * unfold df_columns. rewrite map_app. cbn [map fst].
        rewrite <- app_assoc. exact Hnd.
Qed.

Lemma slope_columns_names_of (s0 : Subj) (suffix : string) (n : nat)
    (P : nat -> string * list cell -> Prop) (cols : list (string * list cell)) :
  Forall2 (fun ch col => exists nm, chans s0 !! ch = Some nm /\ fst col = nm +:+ suffix /\ P ch col)
          (seq 0 n) cols ->
  map fst cols = map (fun c => c +:+ suffix) (take n (chans s0)).
Proof.
  intros H.
  assert (Hn : Forall2 (fun ch nm => chans s0 !! ch = Some nm) (seq 0 n)
                       (take n (chans s0)) /\ length cols = n).
  { pose proof (Forall2_length _ _ _ H) as Hlen. rewrite length_seq in Hlen.
    split; [|done].
    apply Forall2_same_length_lookup_2.
    - rewrite length_seq, length_take. symmetry. apply Nat.min_l.
      destruct n as [|n]; [lia|].
      destruct (lookup_lt_is_Some_2 cols n) as [col Hcol]; [lia|].
      destruct (Forall2_lookup_r _ _ _ _ _ H Hcol) as (ch & Hch & nm & Hnm & _).
      apply lookup_seq in Hch. destruct Hch as [-> _]. cbn in Hnm.
      apply lookup_lt_Some in Hnm. lia.
    - intros i ch nm Hch Hnm. apply lookup_seq in Hch. destruct Hch as [-> Hi]. cbn.
      rewrite lookup_take_lt in Hnm by exact Hi. exact Hnm. }
  destruct Hn as [Hn Hlen].
  apply list_eq. intros i. rewrite !list_lookup_fmap.
  destruct (cols !! i) as [col|] eqn:Hcol; cbn.
  - destruct (Forall2_lookup_r _ _ _ _ _ H Hcol) as (ch & Hch & nm & Hnm & Hfst & _).
    apply lookup_seq in Hch. destruct Hch as [-> Hi]. cbn in Hnm.
    rewrite lookup_take_lt by exact Hi. rewrite Hnm. cbn. by rewrite Hfst.
  - apply lookup_ge_None in Hcol. rewrite lookup_take_ge by lia. reflexivity.
Qed.

(** A list comprehension over the subjects, entry by entry. *)
Lemma per_subject_entries {A} (d : SubjDict) (f : Subj -> result (exn E) A) (l : list A)
    (n : nat) (entry : Subj -> A -> Prop) :
  per_subject d f = Ok l -> nbsubj d = Some n ->
  (forall s v, f s = Ok v -> entry s v) ->
  length l = n /\
  forall i s, items d !! i = Some s -> i < n -> exists v, l !! i = Some v /\ entry s v.
Proof.
  intros Hl Hn Hentry. apply per_subject_Ok in Hl.
  destruct Hl as (n' & Hn' & Hlen & Hall).
  assert (n' = n) as -> by congruence.
  split; [exact Hlen|]. intros i s Hs Hi.
  destruct (Hall i Hi) as (s' & v & Hs' & Hv & Hlv).
  assert (s' = s) as -> by congruence.
  exists v. split; [exact Hlv | by apply Hentry].
Qed.

Lemma slope_entries (d : SubjDict) (ch : nat) (slope_type : string) (l : list Q) (n : nat) :
  get_subject_slopes d ch slope_type = Ok l -> nbsubj d = Some n ->
  length (map CNum l) = n /\
  forall i s, items d !! i = Some s -> i < n ->
    exists v, map CNum l !! i = Some v /\
      exists p r q, psds s !! ch = Some p /\ p !! (slope_type +:+ "_slope") = Some r /\
                    r !! 0 = Some q /\ v = CNum q.
Proof.
  intros Hl Hn. unfold get_subject_slopes in Hl.
  destruct (per_subject_entries d _ l n
              (fun s q => exists p r, psds s !! ch = Some p /\
                            p !! (slope_type +:+ "_slope") = Some r /\ r !! 0 = Some q)
              Hl Hn) as [Hlen Hall].
  { intros s q Hq. by apply slope_of_Ok in Hq. }
  split; [by rewrite length_map|].
  intros i s Hs Hi. destruct (Hall i s Hs Hi) as (q & Hq & p & r & Hp & Hr & H0).
  exists (CNum q). split; [by rewrite list_lookup_fmap, Hq|].
  exists p, r, q. done.
Qed.

(** C10: in the table a completed run exports, every column has one entry
    per discovered recording, and entry [i] is a value of the object in
    [subj[i]], which is the object the loop made from the file at index [i]
    of the file list and its row of the csv (constructed, modified under the
    test of line 210, then given its PSDs and its slopes): its name, group,
    age or one of its window counts, or,
    for a slope column, element 0 of the stored slope record
    [psds[ch][slope_type + '_slope']] of one channel in one condition, as
    [get_subject_slopes] takes it.  When the column names are distinct, the
    columns SUBJECT, CLASS, AGE, NWINDOWS_EYESC and NWINDOWS_EYESO hold these
    attributes, and for every channel [ch] of [subj[0]], with label [l], the
    column [l_EYESC] holds element 0 of [psds[ch]['eyesc_slope']] and the
    column [l_EYESO] element 0 of [psds[ch]['eyeso_slope']], of [subj[i]] at
    entry [i]. *)
Theorem columns_follow_the_file_list (defaults : Params) (w : World) st :
  main str_num defaults w = Done st ->
  exists (fl : list string) tbl tr csv,
    get_filelist (w_fs w) (import_dir_mat (params st)) "mat" = Some fl
    /\ trace st = (tr ++ [EToCsv csv tbl])%list
    /\ nbsubj (subj st) = Some (length fl)
    /\ (forall i f, fl !! i = Some f ->
          let p := params st in
          exists r rs s1 s2 s3 s,
            rows_of (w_csv w (import_path_csv p)) (subject_name f) = r :: rs
            /\ Subject f (import_dir_evt p +:+ subject_name f +:+ ".evt")
                       (CLASS r) (AGE r) (SEX r) = Ok s1
            /\ (trial_protocol p = "match_OA" /\ CLASS r = "DANE" ->
                modify_trial_length 0 30 s1 = Ok s2)
            /\ (~ (trial_protocol p = "match_OA" /\ CLASS r = "DANE") -> s2 = s1)
            /\ compute_ch_psds (nwins_upperlimit p) s2 = Ok s3
            /\ fit_slopes (fitting_func p) (psd_buffer_lofreq p) (psd_buffer_hifreq p)
                          (fitting_lofreq p) (fitting_hifreq p) s3 = Ok s
            /\ items (subj st) !! i = Some s)
    /\ (forall col, col ∈ tbl ->
          length (snd col) = length fl /\
          exists x : field,
            forall i s, items (subj st) !! i = Some s -> i < length fl ->
              exists v, snd col !! i = Some v /\
                match x with
                | FSubject => v = CStr (name s)
                | FClass => v = CStr (group s)
                | FAge => v = CInt (age s)
                | FNwindowsEyesc => v = CInt (nwins_eyesc s)
                | FNwindowsEyeso => v = CInt (nwins_eyeso s)
                | FSlope ch slope_type =>
                    exists p r q,
                      psds s !! ch = Some p /\ p !! (slope_type +:+ "_slope") = Some r /\
                      r !! 0 = Some q /\ v = CNum q
                end)
    /\ (forall s0, items (subj st) !! 0 = Some s0 -> NoDup (expected_columns s0) ->
          let column := fun (nm : string) (entry : Subj -> cell -> Prop) =>
            exists col, (nm, col) ∈ tbl /\ length col = length fl /\
              forall i s, items (subj st) !! i = Some s -> i < length fl ->
                exists v, col !! i = Some v /\ entry s v in
          column "SUBJECT" (fun s v => v = CStr (name s))
          /\ column "CLASS" (fun s v => v = CStr (group s))
          /\ column "AGE" (fun s v => v = CInt (age s))
          /\ column "NWINDOWS_EYESC" (fun s v => v = CInt (nwins_eyesc s))
          /\ column "NWINDOWS_EYESO" (fun s v => v = CInt (nwins_eyeso s))
          /\ forall ch label, ch < nbchan s0 -> chans s0 !! ch = Some label ->
               column (label +:+ "_EYESC")
                 (fun s v => exists p r q,
                    psds s !! ch = Some p /\ p !! "eyesc_slope" = Some r /\
                    r !! 0 = Some q /\ v = CNum q)
               /\ column (label +:+ "_EYESO")
                 (fun s v => exists p r q,
                    psds s !! ch = Some p /\ p !! "eyeso_slope" = Some r /\
                    r !! 0 = Some q /\ v = CNum q)).
Proof.
  intros Hrun.
  destruct (main_done defaults w st Hrun)
    as (fl & tbl & tr & csv & Hfl & Hn & Hsub & Hbt & Htr).
  exists fl, tbl, tr, csv. split_and!; [exact Hfl | exact Htr | exact Hn | | |].
  - intros i f Hf. cbv zeta. destruct (Hsub i f Hf) as (s & Hs & Hit).
    destruct (processed_Ok _ _ _ _ Hs) as (r & rs & s1 & s2 & s3 & Hr & H1 & H2 & H2' & H3 & H4).
    exists r, rs, s1, s2, s3, s. done.
  - destruct (build_table_spec _ _ Hbt) as (_ & _ & HP & _).
    intros col Hcol. rewrite Forall_forall in HP. destruct (HP col Hcol) as (x & Hx).
    destruct x as [| | | | |ch ty]; cbn [field_value] in Hx.
    + destruct (per_subject_entries _ _ _ _ (fun s v => v = CStr (name s)) Hx Hn) as [Hlen Hall];
        [intros s v Hv; cbn in Hv; congruence|]. split; [exact Hlen|]. exists FSubject. exact Hall.
    + destruct (per_subject_entries _ _ _ _ (fun s v => v = CStr (group s)) Hx Hn) as [Hlen Hall];
        [intros s v Hv; cbn in Hv; congruence|]. split; [exact Hlen|]. exists FClass. exact Hall.
    + destruct (per_subject_entries _ _ _ _ (fun s v => v = CInt (age s)) Hx Hn) as [Hlen Hall];
        [intros s v Hv; cbn in Hv; congruence|]. split; [exact Hlen|]. exists FAge. exact Hall.
    + destruct (per_subject_entries _ _ _ _ (fun s v => v = CInt (nwins_eyesc s)) Hx Hn)
        as [Hlen Hall]; [intros s v Hv; cbn in Hv; congruence|].
      split; [exact Hlen|]. exists FNwindowsEyesc. exact Hall.
    + destruct (per_subject_entries _ _ _ _ (fun s v => v = CInt (nwins_eyeso s)) Hx Hn)
        as [Hlen Hall]; [intros s v Hv; cbn in Hv; congruence|].
      split; [exact Hlen|]. exists FNwindowsEyeso. exact Hall.
    + destruct (per_subject_entries _ _ _ _
                  (fun s v => exists p r q,
                     psds s !! ch = Some p /\ p !! (ty +:+ "_slope") = Some r /\
                     r !! 0 = Some q /\ v = CNum q) Hx Hn) as [Hlen Hall].
      { intros s v Hv. cbn in Hv.
        destruct (slope_of s ch (ty +:+ "_slope")) as [q|] eqn:Hq;
          cbn in Hv; [|discriminate].
        injection Hv as <-. apply slope_of_Ok in Hq. destruct Hq as (p & r & ? & ? & ?).
        exists p, r, q. done. }
      split; [exact Hlen|]. exists (FSlope ch ty). exact Hall.
  - intros s0 H0 Hnd. pose proof Hbt as Ho. unfold build_table in Ho.
    destruct (per_subject _ (fun s => Ok (CStr (name s)))) as [c1|] eqn:H1; cbn in Ho; [|discriminate].
    destruct (per_subject _ (fun s => Ok (CStr (group s)))) as [c2|] eqn:H2; cbn in Ho; [|discriminate].
    destruct (per_subject _ (fun s => Ok (CInt (age s)))) as [c3|] eqn:H3; cbn in Ho; [|discriminate].
    destruct (per_subject _ (fun s => Ok (CInt (nwins_eyesc s)))) as [c4|] eqn:H4; cbn in Ho; [|discriminate].
    destruct (per_subject _ (fun s => Ok (CInt (nwins_eyeso s)))) as [c5|] eqn:H5; cbn in Ho; [|discriminate].
    unfold subj_at in Ho. rewrite H0 in Ho. cbn in Ho.
    destruct (slope_columns _ "eyesc" "_EYESC" _ _) as [dfc|] eqn:Hc; cbn in Ho; [|discriminate].
    destruct (slope_columns_table _ _ _ _ _ _ _ H0 Hc) as (cc & Hcc & Htc).
    destruct (slope_columns_table _ _ _ _ _ _ _ H0 Ho) as (co & Hco & Hto).
    assert (Hnc : map fst cc = map (fun c => c +:+ "_EYESC") (take (nbchan s0) (chans s0))).
    { apply (slope_columns_names_of s0 "_EYESC" (nbchan s0) (fun _ _ => True)).
      eapply Forall2_impl; [exact Hcc|]. intros ch col (nm & l & ? & ? & ->). exists nm. done. }
    assert (Hno : map fst co = map (fun c => c +:+ "_EYESO") (take (nbchan s0) (chans s0))).
    { apply (slope_columns_names_of s0 "_EYESO" (nbchan s0) (fun _ _ => True)).
      eapply Forall2_impl; [exact Hco|]. intros ch col (nm & l & ? & ? & ->). exists nm. done. }
    unfold expected_columns, channel_list in Hnd.
    rewrite Htc in Hto.
    2:{ rewrite Hnc. rewrite app_assoc in Hnd. apply NoDup_app in Hnd.
        destruct Hnd as (Hnd & _ & _). exact Hnd. }
    assert (Htbl : tbl = (([("SUBJECT", c1); ("CLASS", c2); ("AGE", c3);
                           ("NWINDOWS_EYESC", c4); ("NWINDOWS_EYESO", c5)] ++ cc) ++ co)%list).
    { apply Hto. unfold df_columns. rewrite map_app, Hnc, Hno, <- app_assoc. exact Hnd. }
    cbv zeta.
    assert (Hmeta : forall nm c (f : Subj -> cell),
              (nm, c) ∈ [("SUBJECT", c1); ("CLASS", c2); ("AGE", c3);
                         ("NWINDOWS_EYESC", c4); ("NWINDOWS_EYESO", c5)] ->
              per_subject (subj st) (fun s => Ok (f s) : result (exn E) cell) = Ok c ->
              exists col, (nm, col) ∈ tbl /\ length col = length fl /\
                forall i s, items (subj st) !! i = Some s -> i < length fl ->
                  exists v, col !! i = Some v /\ v = f s).
    { intros nm c f Hin Hc'.
      destruct (per_subject_entries _ _ _ _ (fun s v => v = f s) Hc' Hn) as [Hlen Hall];
        [by intros s v [= <-]|].
      exists c. split; [|done]. rewrite Htbl. apply elem_of_app. left.
      apply elem_of_app. by left. }
    split_and!.
    + apply (Hmeta _ c1 (fun s => CStr (name s))); [repeat constructor | exact H1].
    + apply (Hmeta _ c2 (fun s => CStr (group s))); [repeat constructor | exact H2].
    + apply (Hmeta _ c3 (fun s => CInt (age s))); [repeat constructor | exact H3].
    + apply (Hmeta _ c4 (fun s => CInt (nwins_eyesc s))); [repeat constructor | exact H4].
    + apply (Hmeta _ c5 (fun s => CInt (nwins_eyeso s))); [repeat constructor | exact H5].
    + intros ch label Hch Hlabel.
      assert (Hseq : seq 0 (nbchan s0) !! ch = Some ch) by (by apply lookup_seq).
      split.
      * destruct (Forall2_lookup_l _ _ _ _ _ Hcc Hseq) as (col & Hcol & nm & l & Hnm & Hl & ->).
        assert (nm = label) as -> by congruence.
        destruct (slope_entries _ _ _ _ _ Hl Hn) as [Hlen Hall].
        exists (map CNum l). split; [|split; [exact Hlen | exact Hall]].
        rewrite Htbl. apply elem_of_app. left. apply elem_of_app. right.
        by eapply list_elem_of_lookup_2.
      * destruct (Forall2_lookup_l _ _ _ _ _ Hco Hseq) as (col & Hcol & nm & l & Hnm & Hl & ->).
        assert (nm = label) as -> by congruence.
        destruct (slope_entries _ _ _ _ _ Hl Hn) as [Hlen Hall].
        exists (map CNum l). split; [|split; [exact Hlen | exact Hall]].
        rewrite Htbl. apply elem_of_app. right.
        by eapply list_elem_of_lookup_2.
Qed.

Lemma exported_table_last (tr : list Event) (csv : string) (tbl : DataFrame) :
  exported_table (tr ++ [EToCsv csv tbl]) = Some tbl.
Proof. unfold exported_table. rewrite map_app. cbn. apply last_last. Qed.

(** ** Exceptions of the subjects *)

Lemma apply_opts_raised opts st e st' :
  (apply_opts opts st : outcome (E:=E)) = Raised e st' -> e = SystemExit 2.
Proof.
  revert st. induction opts as [|[opt arg] opts IH]; intros st; cbn; [discriminate|].
  repeat case_match; try (intros Hrun; exact (IH _ Hrun)).
  by intros [= <- _].
Qed.

Lemma config_raised defaults w e st :
  run (config_actions w : list action) (initial_state defaults) = Raised e st ->
  e = SystemExit 2 \/ e = KeyError.
Proof.
  unfold config_actions, run, c_time, c_commit, c_getopt, c_mkdir. cbn.
  destruct (w_getopt w) as [opts|]; [|intros [= <- _]; by left].
  destruct (apply_opts opts _) as [st1|e1 st1] eqn:Hopts.
  - destruct (p_Time (params st1)); [|intros [= <- _]; by right].
    destruct (free_dir_name _ _ _ _ _); [discriminate | intros [= <- _]; by right].
  - apply apply_opts_raised in Hopts. intros [= <- _]. by left.
Qed.

(** A run that ends with an exception raised inside a method of [Subject]
    (during the loop of lines 198-225) has written no result: neither the
    [.npy] file nor the [.csv] file. *)
Theorem subject_exception_leaves_no_result (defaults : Params) (w : World) (e : E) st :
  main str_num defaults w = Raised (SubjectRaised e) st ->
  Forall (fun ev => result_output ev = false) (trace st).
Proof.
  unfold main.
  destruct (run (config_actions w) (initial_state defaults)) as [st0|e0 st0'] eqn:Hcfg.
  2:{ intros [= -> _]. apply config_raised in Hcfg. destruct Hcfg; discriminate. }
  pose proof (config_done _ _ _ Hcfg) as (Htr0 & _ & _).
  destruct (get_filelist (w_fs w) (import_dir_mat (params st0)) "mat") as [fl|] eqn:Hfl.
  2:{ unfold pipeline. rewrite Hfl. cbn [default from_option app run].
      rewrite a_write_params_done. cbn. discriminate. }
  rewrite (pipeline_run w st0 fl Hfl).
  case_bool_decide as Hm; [discriminate|].
  destruct (loop_from_spec (w_csv w (import_path_csv (params st0))) fl 0
              (loop_start str_num st0 fl)) as (evs & Hloop).
  cbn zeta in Hloop. destruct Hloop as (Htr & _ & _ & _ & _ & Hout & _).
  destruct (run (loop_from _ 0 fl) (loop_start str_num st0 fl)) as [st2|e2 st2];
    cbn [final_state] in *.
  - destruct (save_and_export_spec st2) as (_ & _ & _ & _ & Hend). cbn zeta in Hend.
    intros Hrun. rewrite Hrun in Hend. destruct Hend as [? | [? | ?]]; discriminate.
  - intros [= _ <-]. rewrite Htr. cbn [loop_start trace]. rewrite Htr0.
    apply Forall_app. split; [|exact Hout].
    apply Forall_app. split; [repeat constructor|].
    eapply Forall_impl; [apply params_log_quiet|]. by intros ev [_ ?].
Qed.

End MainProperties.

(** ** The subject of the specification *)

Section SubjectSpecProperties.
Import SubjectSpec.

(** *** Windowing *)

Lemma div_step (n L : nat) : 0 < L -> L <= n -> n / L = S ((n - L) / L).
Proof.
  intros HL Hn. replace n with ((n - L) + 1 * L) at 1 by lia.
  rewrite Nat.div_add by lia. lia.
Qed.

Lemma segment_from_length (L : nat) : forall (fuel : nat) (signal : list Q),
  0 < L -> length signal / L <= fuel ->
  length (segment_from fuel L signal) = length signal / L.
Proof.
  induction fuel as [|fuel IH]; intros signal HL Hfuel; cbn [segment_from].
  - cbn. lia.
  - destruct (Nat.ltb_spec 0 L) as [_|]; [|lia]. cbn [andb].
    destruct (Nat.leb_spec L (length signal)) as [Hle|Hlt].
    + cbn [length]. rewrite IH; rewrite ?length_drop; try assumption.
      * rewrite (div_step (length signal) L) by assumption. reflexivity.
      * rewrite (div_step (length signal) L) in Hfuel by assumption. lia.
    + cbn. rewrite Nat.div_small by assumption. reflexivity.
Qed.

Lemma segment_from_lookup (L : nat) : forall (fuel : nat) (signal : list Q) (k : nat),
  0 < L -> length signal / L <= fuel -> k < length signal / L ->
  segment_from fuel L signal !! k = Some (take L (drop (k * L) signal)).
Proof.
  induction fuel as [|fuel IH]; intros signal k HL Hfuel Hk; [lia|].
  cbn [segment_from].
  destruct (Nat.ltb_spec 0 L) as [_|]; [|lia]. cbn [andb].
  destruct (Nat.leb_spec L (length signal)) as [Hle|Hlt].
  2:{ rewrite Nat.div_small in Hk by assumption. lia. }
  rewrite (div_step (length signal) L) in Hfuel, Hk by assumption.
  destruct k as [|k]; [reflexivity|].
  cbn [lookup list_lookup]. rewrite IH; rewrite ?length_drop; try assumption; try lia.
  rewrite drop_drop. reflexivity.
Qed.

Lemma segment_fuel_enough (L : nat) (signal : list Q) :
  0 < L -> length signal / L <= length signal.
Proof. intros HL. apply Nat.Div0.div_le_upper_bound. nia. Qed.

(** C2 (spec-modelled): with windows of [L] samples, a signal of [T]
    samples and the upper limit [cap], the windowing produces [T / L]
    windows when [cap] is 0 and [min (T / L) cap] otherwise; they are the
    first windows of the segmentation, in order, and window [k] is the
    samples from [k * L] up to [(k + 1) * L]. *)
Theorem window_count_is_floor_capped (L cap : nat) (signal : list Q) :
  0 < L ->
  let T := length signal in
  let n := if (cap =? 0)%nat then T / L else Nat.min (T / L) cap in
  length (windowing L cap signal) = n
  /\ windowing L cap signal = take n (segment L signal)
  /\ length (segment L signal) = T / L
  /\ (forall k, k < n -> windowing L cap signal !! k = Some (take L (drop (k * L) signal))).
Proof.
  intros HL T n.
  pose proof (segment_fuel_enough L signal HL) as Hfuel.
  assert (Hseg : length (segment L signal) = T / L)
    by (apply segment_from_length; assumption).
  assert (Hwin : windowing L cap signal = take n (segment L signal)).
  { unfold windowing, n. destruct (cap =? 0)%nat.
    - rewrite take_ge by lia. reflexivity.
    - destruct (Nat.le_ge_cases cap (T / L)) as [Hc|Hc].
      + rewrite Nat.min_r by exact Hc. reflexivity.
      + rewrite Nat.min_l by exact Hc. rewrite !take_ge by lia. reflexivity. }
  split_and!; [| exact Hwin | exact Hseg |].
  - rewrite Hwin, length_take, Hseg. unfold n. destruct (cap =? 0)%nat; lia.
  - intros k Hk. rewrite Hwin, lookup_take_lt by exact Hk.
    apply segment_from_lookup; try assumption.
    unfold n in Hk. fold T. destruct (cap =? 0)%nat; lia.
Qed.

(** *** Selection of the samples and the fit *)

Section Fitting.
Variable ln : Q -> Q.
Variable linreg ransac : list (Q * Q) -> Q * Q.

Lemma in_fit_range_spec (lo hi f : Q) :
  in_fit_range lo hi f = true <-> (lo <= f)%Q /\ (f <= hi)%Q.
Proof. unfold in_fit_range. rewrite andb_true_iff, !Qle_bool_iff. reflexivity. Qed.

Lemma in_buffer_spec (buf_lo buf_hi f : Q) :
  in_buffer buf_lo buf_hi f = true <-> (buf_lo < f)%Q /\ (f < buf_hi)%Q.
Proof.
  unfold in_buffer. rewrite andb_true_iff, !negb_true_iff.
  rewrite <- !not_true_iff_false, !Qle_bool_iff.
  split; intros [H1 H2]; split;
    first [by apply Qnot_le_lt | by apply Qlt_not_le].
Qed.

Lemma elem_of_select_samples (buf_lo buf_hi lo hi : Q) (psd : list (Q * Q)) (s : Q * Q) :
  s ∈ select_samples buf_lo buf_hi lo hi psd <->
  s ∈ psd /\ (lo <= fst s)%Q /\ (fst s <= hi)%Q /\ ~ ((buf_lo < fst s)%Q /\ (fst s < buf_hi)%Q).
Proof.
  unfold select_samples. rewrite !list_elem_of_In, filter_In, andb_true_iff, negb_true_iff.
  rewrite in_fit_range_spec, <- not_true_iff_false, in_buffer_spec. tauto.
Qed.

Lemma select_samples_outside_buffer (buf_lo buf_hi lo hi : Q) (psd1 psd2 : list (Q * Q)) :
  Forall2 (fun a b => fst a = fst b /\
                      (in_buffer buf_lo buf_hi (fst a) = false -> snd a = snd b)) psd1 psd2 ->
  select_samples buf_lo buf_hi lo hi psd1 = select_samples buf_lo buf_hi lo hi psd2.
Proof.
  unfold select_samples.
  induction 1 as [|[f1 p1] [f2 p2] psd1 psd2 [Hf Hp] _ IH]; [reflexivity|].
  cbn [fst snd] in Hf, Hp. subst f2. cbn [List.filter fst snd]. rewrite IH.
  destruct (in_fit_range lo hi f1); cbn [andb]; [|reflexivity].
  destruct (in_buffer buf_lo buf_hi f1); cbn [negb]; [reflexivity|].
  rewrite (Hp eq_refl). reflexivity.
Qed.

(** C1 (spec-modelled): the fit of a PSD record works on the samples whose
    frequency lies in [lo, hi] and not in (buf_lo, buf_hi), with both axes
    through the logarithm.  Hence two records on the same frequencies whose
    powers differ only at frequencies inside (buf_lo, buf_hi) have the same
    selected samples and the same fit result. *)
Theorem fit_ignores_the_buffer_band (subject channel : string) (c : condition)
    (func : string) (buf_lo buf_hi lo hi : Q) (psd1 psd2 : list (Q * Q)) :
  Forall2 (fun a b => fst a = fst b /\
                      (~ ((buf_lo < fst a)%Q /\ (fst a < buf_hi)%Q) -> snd a = snd b))
          psd1 psd2 ->
  (forall s, s ∈ select_samples buf_lo buf_hi lo hi psd1 <->
     s ∈ psd1 /\ (lo <= fst s)%Q /\ (fst s <= hi)%Q /\
     ~ ((buf_lo < fst s)%Q /\ (fst s < buf_hi)%Q))
  /\ (forall fit, strategy linreg ransac func = Some fit ->
        2 <= length (select_samples buf_lo buf_hi lo hi psd1) ->
        fit_psd ln linreg ransac subject channel c func buf_lo buf_hi lo hi psd1 =
        Ok (fit (log_log ln (select_samples buf_lo buf_hi lo hi psd1))))
  /\ select_samples buf_lo buf_hi lo hi psd1 = select_samples buf_lo buf_hi lo hi psd2
  /\ fit_psd ln linreg ransac subject channel c func buf_lo buf_hi lo hi psd1 =
     fit_psd ln linreg ransac subject channel c func buf_lo buf_hi lo hi psd2.
Proof.
  intros Hsame.
  assert (Hsel : select_samples buf_lo buf_hi lo hi psd1 =
                 select_samples buf_lo buf_hi lo hi psd2).
  { apply select_samples_outside_buffer.
    eapply Forall2_impl; [exact Hsame|]. intros a b [Hf Hp]. split; [exact Hf|].
    intros Hout. apply Hp. rewrite <- in_buffer_spec. congruence. }
  split_and!.
  - intros s. apply elem_of_select_samples.
  - intros fit Hfit Hlen. unfold fit_psd. rewrite Hfit.
    destruct (Nat.ltb_spec (length (select_samples buf_lo buf_hi lo hi psd1)) 2); [lia|].
    reflexivity.
  - exact Hsel.
  - unfold fit_psd. rewrite Hsel. reflexivity.
Qed.

End Fitting.

(** *** Too little data *)

Section TooLittleData.
Variable spectrum : list Q -> list Q.
Variable ln : Q -> Q.
Variable linreg ransac : list (Q * Q) -> Q * Q.
Variable freqs : list Q.
Variable window_length : nat.

Lemma short_signal_no_window (L cap : nat) (signal : list Q) :
  length signal < L -> windowing L cap signal = [].
Proof.
  intros Hlt. assert (Hseg : segment L signal = []).
  { unfold segment. destruct (length signal) as [|n] eqn:Hn; [reflexivity|].
    cbn [segment_from]. rewrite Hn.
    destruct (Nat.leb_spec L (S n)); [lia|]. rewrite andb_false_r. reflexivity. }
  unfold windowing. rewrite Hseg. destruct (cap =? 0)%nat; [reflexivity | apply take_nil].
Qed.

Lemma compute_channel_raises (id : string) (cap : nat) (ch : channel) (e : error) :
  compute_channel spectrum freqs window_length id cap ch = Raise e ->
  exists cond, e = InsufficientData id (label ch) cond.
Proof.
  unfold compute_channel, channel_psd, estimate_psd.
  destruct (windowing window_length cap (sig_eyesc ch)); cbn.
  - intros [= <-]. eauto.
  - destruct (windowing window_length cap (sig_eyeso ch)); cbn; [|discriminate].
    intros [= <-]. eauto.
Qed.

Lemma fit_channel_raises (id func : string) (buf_lo buf_hi lo hi : Q) (ch : channel)
    (fit : list (Q * Q) -> Q * Q) (e : error) :
  strategy linreg ransac func = Some fit ->
  fit_channel ln linreg ransac id func buf_lo buf_hi lo hi ch = Raise e ->
  exists cond, e = InsufficientSamples id (label ch) cond.
Proof.
  intros Hfit. unfold fit_channel, fit_psd.
  destruct (strategy linreg ransac func) as [fit'|]; [|discriminate].
  destruct (length (select_samples buf_lo buf_hi lo hi (psd_eyesc ch)) <? 2)%nat,
           (length (select_samples buf_lo buf_hi lo hi (psd_eyeso ch)) <? 2)%nat;
    cbn; intros H; inversion H; eauto.
Qed.

(** C5 (spec-modelled): a signal shorter than one window gives no window,
    and the spectral estimate of that channel and condition fails with
    [InsufficientData] naming subject, channel and condition; a PSD record
    with fewer than two samples left after the selection makes the fit fail
    with [InsufficientSamples] naming them.  For a subject as a whole:
    [compute] on a subject with such a signal, and [fit] on a subject with
    such a PSD record, raise an error of that kind for this subject; neither
    returns a subject with a spectrum or a fit result. *)
Theorem insufficient_data_is_an_explicit_error :
  (forall subject chan c cap signal,
     length signal < window_length ->
     windowing window_length cap signal = [] /\
     channel_psd spectrum freqs window_length subject chan c cap signal =
     Raise (InsufficientData subject chan c))
  /\ (forall subject chan c func fit buf_lo buf_hi lo hi psd,
        strategy linreg ransac func = Some fit ->
        length (select_samples buf_lo buf_hi lo hi psd) < 2 ->
        fit_psd ln linreg ransac subject chan c func buf_lo buf_hi lo hi psd =
        Raise (InsufficientSamples subject chan c))
  /\ (forall srate load (s : subject) cap ch,
        s_stage s = Raw \/ s_stage s = Modified ->
        ch ∈ s_channels s ->
        length (sig_eyesc ch) < window_length \/ length (sig_eyeso ch) < window_length ->
        exists chan cond,
          compute_ch_psds (SubjectOps := ops spectrum ln linreg ransac freqs window_length
                                             srate load) cap s =
          Raise (InsufficientData (s_id s) chan cond))
  /\ (forall srate load (s : subject) func fit buf_lo buf_hi lo hi ch,
        s_stage s = PSDsComputed ->
        strategy linreg ransac func = Some fit ->
        ch ∈ s_channels s ->
        length (select_samples buf_lo buf_hi lo hi (psd_eyesc ch)) < 2 \/
        length (select_samples buf_lo buf_hi lo hi (psd_eyeso ch)) < 2 ->
        exists chan cond,
          fit_slopes (SubjectOps := ops spectrum ln linreg ransac freqs window_length
                                        srate load) func buf_lo buf_hi lo hi s =
          Raise (InsufficientSamples (s_id s) chan cond)).
Proof.
  split_and!.
  - intros subject chan c cap signal Hlt.
    pose proof (short_signal_no_window window_length cap signal Hlt) as Hw.
    split; [exact Hw|]. unfold channel_psd, estimate_psd. rewrite Hw. reflexivity.
  - intros subject chan c func fit buf_lo buf_hi lo hi psd Hfit Hlen.
    unfold fit_psd. rewrite Hfit.
    destruct (Nat.ltb_spec (length (select_samples buf_lo buf_hi lo hi psd)) 2); [reflexivity | lia].
  - intros srate load s cap ch Hstage Hch Hshort. cbn [compute_ch_psds ops].
    unfold compute.
    destruct (mapM (compute_channel spectrum freqs window_length (s_id s) (Z.to_nat cap))
                   (s_channels s)) as [rs|e] eqn:Hm.
    + exfalso. apply mapM_result_Ok in Hm.
      apply list_elem_of_lookup in Hch. destruct Hch as [i Hi].
      destruct (Forall2_lookup_l _ _ _ _ _ Hm Hi) as (r & _ & Hr).
      unfold compute_channel, channel_psd, estimate_psd in Hr.
      destruct Hshort as [Hs|Hs];
        rewrite (short_signal_no_window _ _ _ Hs) in Hr; cbn in Hr; [discriminate|].
      destruct (windowing _ _ (sig_eyesc ch)); discriminate.
    + apply mapM_result_Raise in Hm. destruct Hm as (x & _ & Hx).
      apply compute_channel_raises in Hx. destruct Hx as [cond ->].
      exists (label x), cond. destruct Hstage as [-> | ->]; reflexivity.
  - intros srate load s func fit buf_lo buf_hi lo hi ch Hstage Hfit Hch Hfew.
    cbn [fit_slopes ops]. unfold SubjectSpec.fit. rewrite Hstage.
    destruct (mapM (fit_channel ln linreg ransac (s_id s) func buf_lo buf_hi lo hi)
                   (s_channels s)) as [cs|e] eqn:Hm.
    + exfalso. apply mapM_result_Ok in Hm.
      apply list_elem_of_lookup in Hch. destruct Hch as [i Hi].
      destruct (Forall2_lookup_l _ _ _ _ _ Hm Hi) as (r & _ & Hr).
      revert Hr. unfold fit_channel, fit_psd.
      destruct (strategy linreg ransac func) as [fit'|]; [|discriminate].
      destruct (Nat.ltb_spec (length (select_samples buf_lo buf_hi lo hi (psd_eyesc ch))) 2),
               (Nat.ltb_spec (length (select_samples buf_lo buf_hi lo hi (psd_eyeso ch))) 2);
        cbn; try discriminate. lia.
    + apply mapM_result_Raise in Hm. destruct Hm as (x & _ & Hx).
      apply (fit_channel_raises _ _ _ _ _ _ _ fit) in Hx; [|exact Hfit].
      destruct Hx as [cond ->]. exists (label x), cond. reflexivity.
Qed.

End TooLittleData.

End SubjectSpecProperties.

(** * The properties on the small cohort *)

Section DemoRuns.
Import SubjectSpec.

Local Abbreviation demo_run labels defaults opts csv :=
  (main (Sops := Demo.ops labels) Demo.str_num defaults (Demo.world opts csv)).
Local Abbreviation demo_established defaults opts csv :=
  (established (Subj := subject) (E := error) defaults (Demo.world opts csv)).
Local Abbreviation long_run :=
  (main (Sops := Demo.ops_long ["Fz"; "Cz"]) Demo.str_num default_params
        (Demo.world [] Demo.csv_both)).

(** C9, the claim as it is written: in an import directory that holds the
    recording [s01.mat] and a directory named [old.mat], the result has the
    directory beside the recording: not only files are returned. *)
Lemma matching_directory_is_returned :
  get_filelist (fun _ => Some Demo.tree_with_folder) "data/" "mat" =
    Some ["data/s01.mat"; "data/old.mat"]
  /\ entries_of Demo.tree_with_folder !! 1 = Some ("old.mat", Folder [("s03.mat", File)])
  /\ is_folder (Folder [("s03.mat", File)]) = true.
Proof. split_and!; reflexivity. Qed.

(** C9 as amended, on the import directory of the cohort: the two
    recordings of the top level, and nothing of the directory below. *)
Lemma get_filelist_top_directory_only_witness :
  get_filelist Demo.fs (import_dir_mat default_params) "mat" = Some [Demo.s01; Demo.s02]
  /\ get_filelist (fun _ => Some (top_level_only Demo.tree)) (import_dir_mat default_params) "mat" =
     get_filelist (fun _ => Some Demo.tree) (import_dir_mat default_params) "mat".
Proof.
  destruct (get_filelist_top_directory_only Demo.fs (import_dir_mat default_params) "mat")
    as (Hget & _ & Htop); [reflexivity | reflexivity | reflexivity |].
  split; [rewrite Hget; reflexivity | apply Htop].
Defined.

(** C1 on a record with a spike strictly between 7 and 14 Hz: the fit over
    [2, 24] without (7, 14) is the fit of the record without the spike. *)
Lemma fit_ignores_the_buffer_band_witness :
  select_samples 7 14 2 24 Demo.psd_spike =
    [(2, 8); (5, 5); (7, 4); (14, 2); (20, 1); (24, 1)]%Q
  /\ fit_psd Demo.ln Demo.line_fit Demo.line_fit "s01" "Fz" EyesClosed "ransac"
             7 14 2 24 Demo.psd_spike =
     fit_psd Demo.ln Demo.line_fit Demo.line_fit "s01" "Fz" EyesClosed "ransac"
             7 14 2 24 Demo.psd_plain.
Proof.
  split; [reflexivity|].
  apply (fit_ignores_the_buffer_band Demo.ln Demo.line_fit Demo.line_fit).
  unfold Demo.psd_spike, Demo.psd_plain.
  repeat (constructor;
          [split; [reflexivity
                  | intros Hout; first [reflexivity | exfalso; apply Hout; split; reflexivity]]|]).
  constructor.
Defined.

(** C2 on the scenario of the specification: sixty seconds in windows of
    ten give six windows, four under a cap of four, and three once the
    signal is restricted to its first thirty seconds. *)
Lemma window_count_is_floor_capped_witness :
  length (windowing 10 0 Demo.minute) = 6
  /\ length (windowing 10 4 Demo.minute) = 4
  /\ length (windowing 10 0 (restrict 1 0 30 Demo.minute)) = 3.
Proof.
  split_and!.
  - apply (window_count_is_floor_capped 10 0 Demo.minute). lia.
  - apply (window_count_is_floor_capped 10 4 Demo.minute). lia.
  - apply (window_count_is_floor_capped 10 0 (restrict 1 0 30 Demo.minute)). lia.
Defined.


(** C4, the claim as it is written, on a configuration whose buffer is not
    inside the fitting range and whose trial policy is unknown: the run does
    not stop before the subjects; it processes them and completes. *)
Lemma invalid_configuration_is_not_rejected :
  let o := demo_run ["Fz"; "Cz"] Demo.bad_params Demo.bad_opts Demo.csv_both in
  valid_frequency_order (params (final_state o)) = false
  /\ trial_protocol (params (final_state o)) = "no_such_protocol"
  /\ ~ stopped_before_any_subject o
  /\ (exists st, o = Done st)
  /\ calls_on 0 (trace (final_state o)) =
     [CNew Demo.s01 "data/rs/full/evt/clean/s01.evt" "DANE" 25 "F";
      CCompute 0; CFit "ransac" 30 1 2 24].
Proof.
  cbv zeta. split_and!.
  - by vm_compute.
  - by vm_compute.
  - intros (e & st & Ho & _). vm_compute in Ho. discriminate.
  - eexists. vm_compute. reflexivity.
  - by vm_compute.
Qed.

(** C4 as amended, on the same configuration. *)
Lemma configuration_is_not_validated_witness :
  let st0 := demo_established Demo.bad_params Demo.bad_opts Demo.csv_both in
  exists rest,
    trace (final_state (demo_run ["Fz"; "Cz"] Demo.bad_params Demo.bad_opts Demo.csv_both)) =
    ([EMkdir (export_dir (params st0))] ++ params_log Demo.str_num (params st0) ++
     [EPrint ("Processing: " +:+ subject_name Demo.s01);
      ECall 0 (CNew Demo.s01 (import_dir_evt (params st0) +:+ subject_name Demo.s01 +:+ ".evt")
                    "DANE" 25 "F")] ++ rest)%list.
Proof.
  cbv zeta.
  destruct (configuration_is_not_validated (Sops := Demo.ops ["Fz"; "Cz"]) Demo.str_num
              Demo.bad_params (Demo.world Demo.bad_opts Demo.csv_both)
              (demo_established Demo.bad_params Demo.bad_opts Demo.csv_both)
              Demo.s01 [Demo.s02]) as [(r & rs & rest & Hrows & Htr) _];
    [by vm_compute | by vm_compute | by vm_compute |].
  vm_compute in Hrows. injection Hrows as <- _.
  exists rest. exact Htr.
Defined.

(** C5 on a signal of three samples under windows of four, and on a PSD
    record none of whose samples is left by a buffer from 1 to 30 Hz. *)
Lemma insufficient_data_is_an_explicit_error_witness :
  channel_psd Demo.spectrum Demo.freqs 4 "s01" "Fz" EyesClosed 0 [1; 2; 3]%Q =
    Raise (InsufficientData "s01" "Fz" EyesClosed)
  /\ fit_psd Demo.ln Demo.line_fit Demo.line_fit "s01" "Fz" EyesOpen "linreg"
             1 30 2 24 Demo.psd_plain =
     Raise (InsufficientSamples "s01" "Fz" EyesOpen).
Proof.
  destruct (insufficient_data_is_an_explicit_error Demo.spectrum Demo.ln Demo.line_fit
              Demo.line_fit Demo.freqs 4) as (Hdata & Hsamples & _).
  split.
  - apply Hdata. cbn. lia.
  - apply (Hsamples _ _ _ _ Demo.line_fit); [reflexivity | vm_compute; lia].
Defined.

(** C6 on a cohort of two whose recordings last forty seconds: the first
    subject is of group DANE, is modified once before its PSDs are computed,
    and ends with signals of thirty seconds and seven windows; the second is
    of another group, is not modified, and keeps forty seconds and ten
    windows. *)
Lemma trial_length_modified_once_for_target_group_witness :
  let st := final_state long_run in
  (calls_on 0 (trace st) =
     [CNew Demo.s01 "data/rs/full/evt/clean/s01.evt" "DANE" 25 "F";
      CModify 0 30; CCompute 0; CFit "ransac" 7 14 2 24]
   /\ exists s, items (subj st) !! 0 = Some s
        /\ map (fun c => length (sig_eyesc c)) (s_channels s) = [30; 30]
        /\ s_nwins_eyesc s = 7)
  /\ (calls_on 1 (trace st) =
        [CNew Demo.s02 "data/rs/full/evt/clean/s02.evt" "SA" 70 "M";
         CCompute 0; CFit "ransac" 7 14 2 24]
      /\ exists s, items (subj st) !! 1 = Some s
           /\ map (fun c => length (sig_eyesc c)) (s_channels s) = [40; 40]
           /\ s_nwins_eyesc s = 10).
Proof.
  cbv zeta.
  assert (Hmain : long_run = Done (final_state long_run)) by (vm_compute; reflexivity).
  split.
  - destruct (trial_length_modified_once_for_target_group (Sops := Demo.ops_long ["Fz"; "Cz"])
                Demo.str_num default_params (Demo.world [] Demo.csv_both)
                (demo_established default_params [] Demo.csv_both)
                [Demo.s01; Demo.s02] 0 Demo.s01 (mkRow "s01" "DANE" 25 "F") [])
      as [_ Hdone]; [by vm_compute | by vm_compute | reflexivity | by vm_compute |].
    destruct (Hdone _ Hmain) as (Hcalls & s1 & s2 & s3 & s4 & H1 & Ht & _ & H3 & H4 & Hit).
    split; [rewrite Hcalls; by vm_compute|].
    exists s4. split; [exact Hit|].
    specialize (Ht (conj eq_refl eq_refl)).
    vm_compute in H1. injection H1 as <-.
    vm_compute in Ht. injection Ht as <-.
    vm_compute in H3. injection H3 as <-.
    vm_compute in H4. injection H4 as <-.
    split; reflexivity.
  - destruct (trial_length_modified_once_for_target_group (Sops := Demo.ops_long ["Fz"; "Cz"])
                Demo.str_num default_params (Demo.world [] Demo.csv_both)
                (demo_established default_params [] Demo.csv_both)
                [Demo.s01; Demo.s02] 1 Demo.s02 (mkRow "s02" "SA" 70 "M") [])
      as [_ Hdone]; [by vm_compute | by vm_compute | reflexivity | by vm_compute |].
    destruct (Hdone _ Hmain) as (Hcalls & s1 & s2 & s3 & s4 & H1 & _ & Hnt & H3 & H4 & Hit).
    split; [rewrite Hcalls; by vm_compute|].
    exists s4. split; [exact Hit|].
    assert (s2 = s1) as -> by (apply Hnt; intros [_ [=]]).
    vm_compute in H1. injection H1 as <-.
    vm_compute in H3. injection H3 as <-.
    vm_compute in H4. injection H4 as <-.
    split; reflexivity.
Defined.

(** C7, the claim as it is written: the table of the cohort of two has no
    column for the sex of the subjects, which the csv gives; and when two
    channels carry the same label the table has a single column for them in
    each condition. *)
Lemma table_has_no_sex_column :
  (exists tbl,
     exported_table (trace (final_state
       (demo_run ["Fz"; "Cz"] default_params [] Demo.csv_both))) = Some tbl
     /\ map SEX Demo.csv_both = ["F"; "M"]
     /\ df_columns tbl =
        ["SUBJECT"; "CLASS"; "AGE"; "NWINDOWS_EYESC"; "NWINDOWS_EYESO";
         "Fz_EYESC"; "Cz_EYESC"; "Fz_EYESO"; "Cz_EYESO"])
  /\ (exists tbl,
        exported_table (trace (final_state
          (demo_run ["Fz"; "Fz"] default_params [] Demo.csv_both))) = Some tbl
        /\ df_columns tbl =
           ["SUBJECT"; "CLASS"; "AGE"; "NWINDOWS_EYESC"; "NWINDOWS_EYESO";
            "Fz_EYESC"; "Fz_EYESO"]).
Proof. split; eexists; split_and!; by vm_compute. Qed.

(** C7 as amended, on the cohort of two. *)
Lemma result_table_columns_witness :
  exists tbl,
    exported_table (trace (final_state
      (demo_run ["Fz"; "Cz"] default_params [] Demo.csv_both))) = Some tbl
    /\ df_columns tbl =
       ["SUBJECT"; "CLASS"; "AGE"; "NWINDOWS_EYESC"; "NWINDOWS_EYESO";
        "Fz_EYESC"; "Cz_EYESC"; "Fz_EYESO"; "Cz_EYESO"]
    /\ Forall (fun c => length (snd c) = 2) tbl.
Proof.
  edestruct (result_table_columns (Sops := Demo.ops ["Fz"; "Cz"]) Demo.str_num
               default_params (Demo.world [] Demo.csv_both)
               (final_state (demo_run ["Fz"; "Cz"] default_params [] Demo.csv_both)))
    as (fl & tbl & tr & csv & Hfl & Htr & Hcols & Hrows).
  - vm_compute. reflexivity.
  - vm_compute. reflexivity.
  - vm_compute. apply (bool_decide_unpack _). by vm_compute.
  - exists tbl. rewrite Htr, exported_table_last. split; [reflexivity|].
    split; [rewrite Hcols; by vm_compute|].
    vm_compute in Hfl. injection Hfl as <-. exact Hrows.
Defined.

(** C10 on the same cohort, whose two subjects and two channels have
    different slopes: the entries of the columns SUBJECT, Fz_EYESC, Cz_EYESC
    and Fz_EYESO are those of the subject at the same index. *)
Lemma columns_follow_the_file_list_witness :
  let st := final_state long_run in
  exists tbl subjects fz_eyesc cz_eyesc fz_eyeso,
    exported_table (trace st) = Some tbl
    /\ ("SUBJECT", subjects) ∈ tbl
    /\ subjects !! 0 = Some (CStr "s01") /\ subjects !! 1 = Some (CStr "s02")
    /\ ("Fz_EYESC", fz_eyesc) ∈ tbl
    /\ fz_eyesc !! 0 = Some (CNum (-7 # 2)) /\ fz_eyesc !! 1 = Some (CNum (-7 # 5))
    /\ ("Cz_EYESC", cz_eyesc) ∈ tbl
    /\ cz_eyesc !! 0 = Some (CNum (1 # 2)) /\ cz_eyesc !! 1 = Some (CNum (7 # 5))
    /\ ("Fz_EYESO", fz_eyeso) ∈ tbl
    /\ fz_eyeso !! 0 = Some (CNum (1 # 2)) /\ fz_eyeso !! 1 = Some (CNum (7 # 5)).
Proof.
  cbv zeta.
  destruct (columns_follow_the_file_list (Sops := Demo.ops_long ["Fz"; "Cz"]) Demo.str_num
              default_params (Demo.world [] Demo.csv_both) (final_state long_run))
    as (fl & tbl & tr & csv & Hfl & Htr & Hn & Hsub & _ & Hnamed); [vm_compute; reflexivity|].
  vm_compute in Hfl. injection Hfl as <-.
  destruct (Hsub 0 Demo.s01 eq_refl) as (_ & _ & _ & _ & _ & s01 & _ & _ & _ & _ & _ & _ & H01).
  destruct (Hsub 1 Demo.s02 eq_refl) as (_ & _ & _ & _ & _ & s02 & _ & _ & _ & _ & _ & _ & H02).
  destruct (Hnamed s01 H01) as (Hsubject & _ & _ & _ & _ & Hchan).
  { vm_compute in H01. injection H01 as <-.
    vm_compute. apply (bool_decide_unpack _). by vm_compute. }
  destruct Hsubject as (subjects & Hin & _ & Hent).
  destruct (Hchan 0 "Fz") as [(fzc & Hfzc & _ & Hfzc_ent) (fzo & Hfzo & _ & Hfzo_ent)].
  { vm_compute in H01. injection H01 as <-. cbn. lia. }
  { vm_compute in H01. injection H01 as <-. reflexivity. }
  destruct (Hchan 1 "Cz") as [(czc & Hczc & _ & Hczc_ent) _].
  { vm_compute in H01. injection H01 as <-. cbn. lia. }
  { vm_compute in H01. injection H01 as <-. reflexivity. }
  exists tbl, subjects, fzc, czc, fzo.
  rewrite Htr, exported_table_last.
  assert (Hname : forall i s (id : string),
            items (subj (final_state long_run)) !! i = Some s -> i < 2 ->
            s_id s = id -> subjects !! i = Some (CStr id)).
  { intros i s id Hs Hi <-. destruct (Hent i s Hs Hi) as (v & Hv & ->). exact Hv. }
  assert (Hslope : forall (col : list cell) (ch : nat) (key : string) i s p r (x : Q),
            (forall i s, items (subj (final_state long_run)) !! i = Some s -> i < 2 ->
               exists v, col !! i = Some v /\
                 exists p r q, psds (SubjectOps := Demo.ops_long ["Fz"; "Cz"]) s !! ch = Some p /\
                               p !! key = Some r /\ r !! 0 = Some q /\ v = CNum q) ->
            items (subj (final_state long_run)) !! i = Some s -> i < 2 ->
            psds (SubjectOps := Demo.ops_long ["Fz"; "Cz"]) s !! ch = Some p ->
            p !! key = Some r -> r !! 0 = Some x ->
            col !! i = Some (CNum x)).
  { intros col ch key i s p r x Hcol Hs Hi Hp Hr Hx.
    destruct (Hcol i s Hs Hi) as (v & Hv & p' & r' & q & Hp' & Hr' & Hq & ->).
    rewrite Hv. repeat f_equal. congruence. }
  clear Hsub Hnamed Hchan H01 H02.
  split; [reflexivity|]. split; [exact Hin|].
  split; [eapply (Hname 0); [vm_compute; reflexivity | lia | reflexivity]|].
  split; [eapply (Hname 1); [vm_compute; reflexivity | lia | reflexivity]|].
  split; [exact Hfzc|].
  split; [eapply (Hslope fzc 0 "eyesc_slope" 0);
          [exact Hfzc_ent | vm_compute; reflexivity | lia | ..]; vm_compute; reflexivity|].
  split; [eapply (Hslope fzc 0 "eyesc_slope" 1);
          [exact Hfzc_ent | vm_compute; reflexivity | lia | ..]; vm_compute; reflexivity|].
  split; [exact Hczc|].
  split; [eapply (Hslope czc 1 "eyesc_slope" 0);
          [exact Hczc_ent | vm_compute; reflexivity | lia | ..]; vm_compute; reflexivity|].
  split; [eapply (Hslope czc 1 "eyesc_slope" 1);
          [exact Hczc_ent | vm_compute; reflexivity | lia | ..]; vm_compute; reflexivity|].
  split; [exact Hfzo|].
  split; [eapply (Hslope fzo 0 "eyeso_slope" 0);
          [exact Hfzo_ent | vm_compute; reflexivity | lia | ..]; vm_compute; reflexivity|].
  eapply (Hslope fzo 0 "eyeso_slope" 1);
    [exact Hfzo_ent | vm_compute; reflexivity | lia | ..]; vm_compute; reflexivity.
Defined.

(** A run whose buffer leaves no sample to fit: the fit of the first subject
    raises, the run ends with that exception and writes no result. *)
Lemma subject_exception_leaves_no_result_witness :
  exists st,
    demo_run ["Fz"; "Cz"] Demo.wide_buffer_params [] Demo.csv_both =
    Raised (SubjectRaised (InsufficientSamples "s01" "Fz" EyesClosed)) st
    /\ Forall (fun ev => result_output ev = false) (trace st).
Proof.
  eexists. split; [vm_compute; reflexivity|].
  eapply (subject_exception_leaves_no_result (Sops := Demo.ops ["Fz"; "Cz"]) Demo.str_num
            Demo.wide_buffer_params (Demo.world [] Demo.csv_both)).
  vm_compute. reflexivity.
Defined.

End DemoRuns.
